(** * Celeste CLI remote (flipper/celeste_cli/celeste_cli.c)

    A shallow embedding of the menu application: the command catalog and its
    two lookup loops, the HID text emitter over a trace-recording model of
    the platform HAL, the submenu renderer over a list of canvas draw calls,
    and the input handler as a transition function on the application
    record.  C integers are [Z] with their wrap-around written out, C
    strings are [string], pointers into the [commands] array are indices. *)

From Stdlib Require Import String Ascii ZArith List Bool Lia Sorted.
Import ListNotations.
Local Open Scope Z_scope.

(** ** Machine integers *)

Definition wrap8 (z : Z) : Z := z mod 256.
Definition wrap32 (z : Z) : Z := z mod 4294967296.

(** ** Command catalog *)

Inductive MenuCategory :=
| MenuCategoryMain
| MenuCategoryTarot
| MenuCategoryContent
| MenuCategoryNSFW.

Definition MenuCategory_eqb (a b : MenuCategory) : bool :=
  match a, b with
  | MenuCategoryMain, MenuCategoryMain
  | MenuCategoryTarot, MenuCategoryTarot
  | MenuCategoryContent, MenuCategoryContent
  | MenuCategoryNSFW, MenuCategoryNSFW => true
  | _, _ => false
  end.

(** [const char*] fields are [option string]: [None] is the NULL pointer. *)
Record CelesteCommand := {
  name : option string;
  command : option string;
  category : MenuCategory
}.

Definition nl : string := String "010"%char EmptyString.
Definition dq : string := String "034"%char EmptyString.
Definition quoted (s : string) : string := (dq ++ s ++ dq)%string.

Definition entry (n c : string) (cat : MenuCategory) : CelesteCommand :=
  {| name := Some n; command := Some c; category := cat |}.

Definition commands : list CelesteCommand := Eval cbv in
  let twitter tone :=
    ("celestecli --format short --platform twitter --topic " ++ quoted "NIKKE"
       ++ " --tone " ++ quoted tone ++ nl)%string in
  [ entry "3-Card Tarot" ("celestecli --tarot" ++ nl) MenuCategoryTarot;
    entry "Celtic Cross" ("celestecli --tarot --spread celtic" ++ nl) MenuCategoryTarot;
    entry "Divine Reading" ("celestecli --divine" ++ nl) MenuCategoryTarot;
    entry "Divine NSFW" ("celestecli --divine-nsfw" ++ nl) MenuCategoryTarot;
    entry "Tarot Parsed" ("celestecli --tarot --parsed" ++ nl) MenuCategoryTarot;
    entry "Twitter Short" (twitter "lewd") MenuCategoryContent;
    entry "Twitter Teasing" (twitter "teasing") MenuCategoryContent;
    entry "Twitter Chaotic" (twitter "chaotic") MenuCategoryContent;
    entry "YouTube Desc"
      ("celestecli --format long --platform youtube --topic " ++ quoted "Streaming"
         ++ " --request " ++ quoted "include links to website, socials, products" ++ nl)
      MenuCategoryContent;
    entry "NSFW Text"
      ("celestecli --nsfw --format short --platform twitter --topic " ++ quoted "NIKKE"
         ++ " --tone " ++ quoted "explicit" ++ nl)
      MenuCategoryNSFW;
    entry "NSFW Image"
      ("celestecli --nsfw --image --request " ++ quoted "generate NSFW image of Celeste" ++ nl)
      MenuCategoryNSFW;
    entry "List Models" ("celestecli --nsfw --list-models" ++ nl) MenuCategoryNSFW;
    {| name := None; command := None; category := MenuCategoryMain |} ]%string.

(** A pointer [const CelesteCommand*] into the array is the index of the
    element it points to; [None] is NULL. *)
Definition CommandPtr := option nat.

Definition deref (table : list CelesteCommand) (p : nat) : option CelesteCommand :=
  nth_error table p.

Section Catalog.

(** The array the loops walk.  The program has one, [commands]; the loops
    are written over any array so that the renderer can also be stated for
    a category of ten entries.  The [uint8_t] loop index does not wrap for
    arrays of fewer than 256 elements. *)
Variable table : list CelesteCommand.

(** Loop of [count_menu_items] from element [i] on ([rest] is the array
    from [i]): stops at the first element whose name is NULL.  The case of
    the empty list is a read behind an array without sentinel, which
    [commands] is not. *)
Fixpoint count_loop (rest : list CelesteCommand) (cat : MenuCategory) (count : Z) : Z :=
  match rest with
  | [] => count
  | e :: rest' =>
      match name e with
      | None => count
      | Some _ =>
          count_loop rest' cat
            (if MenuCategory_eqb (category e) cat then wrap8 (count + 1) else count)
      end
  end.

Definition count_menu_items (cat : MenuCategory) : Z :=
  count_loop table cat 0.

(** Loop of [get_menu_item]; [i] is the array index of the head of [rest]. *)
Fixpoint get_loop (rest : list CelesteCommand) (cat : MenuCategory)
         (index count : Z) (i : nat) : CommandPtr :=
  match rest with
  | [] => None
  | e :: rest' =>
      match name e with
      | None => None
      | Some _ =>
          if MenuCategory_eqb (category e) cat then
            if count =? index then Some i
            else get_loop rest' cat index (wrap8 (count + 1)) (S i)
          else get_loop rest' cat index count (S i)
      end
  end.

Definition get_menu_item (cat : MenuCategory) (index : Z) : CommandPtr :=
  get_loop table cat index 0 0%nat.

End Catalog.

(** *** What the lookups are compared with *)

(** The entries in front of the sentinel. *)
Fixpoint entries (table : list CelesteCommand) : list CelesteCommand :=
  match table with
  | [] => []
  | e :: rest => match name e with None => [] | Some _ => e :: entries rest end
  end.

Definition in_category (cat : MenuCategory) (e : CelesteCommand) : bool :=
  MenuCategory_eqb (category e) cat.

(** Array positions, counted from [start], of the entries of a category, in
    declaration order. *)
Definition positions_from (start : nat) (es : list CelesteCommand) (cat : MenuCategory)
  : list nat :=
  map fst (filter (fun pe => in_category cat (snd pe)) (combine (seq start (List.length es)) es)).

Definition category_positions (table : list CelesteCommand) (cat : MenuCategory) : list nat :=
  positions_from 0 (entries table) cat.

(** ** Platform HAL: USB, HID keyboard, delays

    The program only calls the HAL; what it does is the sequence of calls it
    makes.  A HAL state records that sequence, the selected USB
    configuration, and the host: [host_connected k] is the answer the k-th
    call of [furi_hal_usb_is_connected] gets. *)

(** USB configurations of the platform; the program names only [usb_hid]. *)
Inductive FuriHalUsbInterface :=
| usb_cdc_single
| usb_cdc_dual
| usb_hid
| usb_hid_u2f.

Definition HidKeyboardKey := Z.

Inductive HalEvent :=
| EvUsbSetConfig (iface : FuriHalUsbInterface)
| EvUsbIsConnected (answer : bool)
| EvDelayMs (ms : Z)
| EvKbPress (button : HidKeyboardKey)
| EvKbRelease (button : HidKeyboardKey).

Record Hal := {
  usb_config : FuriHalUsbInterface;
  usb_polls : nat;
  host_connected : nat -> bool;
  hal_trace : list HalEvent
}.

Definition emit (e : HalEvent) (h : Hal) : Hal :=
  {| usb_config := usb_config h;
     usb_polls := usb_polls h;
     host_connected := host_connected h;
     hal_trace := hal_trace h ++ [e] |}.

Definition furi_hal_usb_set_config (iface : FuriHalUsbInterface) (h : Hal) : Hal :=
  emit (EvUsbSetConfig iface)
    {| usb_config := iface;
       usb_polls := usb_polls h;
       host_connected := host_connected h;
       hal_trace := hal_trace h |}.

Definition furi_hal_usb_is_connected (h : Hal) : bool * Hal :=
  let answer := host_connected h (usb_polls h) in
  (answer,
   emit (EvUsbIsConnected answer)
     {| usb_config := usb_config h;
        usb_polls := S (usb_polls h);
        host_connected := host_connected h;
        hal_trace := hal_trace h |}).

Definition furi_delay_ms (ms : Z) : Hal -> Hal := emit (EvDelayMs ms).
Definition furi_hal_hid_kb_press (button : HidKeyboardKey) : Hal -> Hal := emit (EvKbPress button).
Definition furi_hal_hid_kb_release (button : HidKeyboardKey) : Hal -> Hal := emit (EvKbRelease button).

(** Key codes of the platform header: the usage ids of the keyboard page of
    the USB HID usage tables. *)
Definition HID_KEYBOARD_A : HidKeyboardKey := 4.
Definition HID_KEYBOARD_B : HidKeyboardKey := 5.
Definition HID_KEYBOARD_1 : HidKeyboardKey := 30.
Definition HID_KEYBOARD_0 : HidKeyboardKey := 39.
Definition HID_KEYBOARD_RETURN : HidKeyboardKey := 40.
Definition HID_KEYBOARD_SPACEBAR : HidKeyboardKey := 44.
Definition HID_KEYBOARD_MINUS : HidKeyboardKey := 45.
Definition HID_KEYBOARD_APOSTROPHE : HidKeyboardKey := 52.
Definition HID_KEYBOARD_LEFT_SHIFT : HidKeyboardKey := 225.

(** ** HID text emitter *)

(** The value of a [char]. *)
Definition code (c : ascii) : Z := Z.of_nat (nat_of_ascii c).

(** Sequencing of HAL calls, in program order. *)
Definition HalOp := Hal -> Hal.
Definition seq_op (a b : HalOp) : HalOp := fun h => b (a h).
Definition skip_op : HalOp := fun h => h.
Notation "a ;; b" := (seq_op a b) (at level 61, left associativity).

Definition send_key (key : HidKeyboardKey) (shift : bool) : HalOp :=
  (if shift then furi_hal_hid_kb_press HID_KEYBOARD_LEFT_SHIFT else skip_op) ;;
  furi_hal_hid_kb_press key ;;
  furi_delay_ms 20 ;;
  furi_hal_hid_kb_release key ;;
  (if shift then furi_hal_hid_kb_release HID_KEYBOARD_LEFT_SHIFT else skip_op) ;;
  furi_delay_ms 10.

Definition send_char (c : ascii) : HalOp :=
  if (code "a" <=? code c) && (code c <=? code "z") then
    send_key (HID_KEYBOARD_A + (code c - code "a")) false
  else if (code "A" <=? code c) && (code c <=? code "Z") then
    send_key (HID_KEYBOARD_A + (code c - code "A")) true
  else if code c =? code " " then
    send_key HID_KEYBOARD_SPACEBAR false
  else if code c =? code "010" then
    send_key HID_KEYBOARD_RETURN false ;; furi_delay_ms 100
  else if code c =? code "-" then
    send_key HID_KEYBOARD_MINUS false
  else if code c =? code "034" then
    send_key HID_KEYBOARD_APOSTROPHE true
  else if code c =? code "0" then
    send_key HID_KEYBOARD_0 false
  else if (code "1" <=? code c) && (code c <=? code "9") then
    send_key (HID_KEYBOARD_1 + (code c - code "1")) false
  else skip_op.

(** [strlen]: the number of characters in front of the first NUL. *)
Fixpoint strlen (s : string) : nat :=
  match s with
  | EmptyString => 0%nat
  | String c rest => if (code c =? 0) then 0%nat else S (strlen rest)
  end.

(** [command[i]]; the character after the last one is the terminating NUL. *)
Definition char_at (s : string) (i : nat) : ascii :=
  match String.get i s with
  | Some c => c
  | None => zero
  end.

(** [for(size_t i = 0; i < strlen(command); i++) send_char(command[i]);] *)
Definition type_command (command : string) : HalOp :=
  fun h => fold_left (fun h' i => send_char (char_at command i) h') (seq 0 (strlen command)) h.

(** The polling loop of [send_command].  Every turn of the body needs
    [timeout < 500] and adds one to [timeout], so 500 units of [fuel] are
    never used up from [timeout = 0] ([usb_wait_fuel] below). *)
Fixpoint usb_wait (fuel : nat) (timeout : Z) (h : Hal) : Z * Hal :=
  let (connected, h1) := furi_hal_usb_is_connected h in
  if negb connected && (timeout <? 500) then
    match fuel with
    | O => (timeout, h1)
    | S fuel' => usb_wait fuel' (wrap32 (timeout + 1)) (furi_delay_ms 10 h1)
    end
  else (timeout, h1).

Definition send_command (command : string) : HalOp :=
  fun h =>
    (* Enable USB HID *)
    let h := furi_hal_usb_set_config usb_hid h in
    (* Wait for USB connection (with timeout) *)
    let (_, h) := usb_wait 500 0 h in
    let (connected, h) := furi_hal_usb_is_connected h in
    if negb connected then h (* USB not connected *)
    else
      (* Small delay to ensure host is ready *)
      let h := furi_delay_ms 500 h in
      (* Type the command *)
      let h := type_command command h in
      (* Disable USB HID *)
      furi_hal_usb_set_config usb_hid h.

(** ** Application state *)

Inductive AppState :=
| AppStateSplash
| AppStateMainMenu
| AppStateTarotMenu
| AppStateContentMenu
| AppStateNSFWMenu
| AppStateConfirm
| AppStateExecuting
| AppStateCustomInput.

Definition MAX_COMMAND_LENGTH : nat := 256.

Record CelesteApp := {
  state : AppState;
  selected_item : Z;
  menu_start : Z;
  current_category : MenuCategory;
  current_command : CommandPtr;
  custom_command : list ascii;
  splash_timer : Z;
  running : bool
}.

Definition set_state (s : AppState) (app : CelesteApp) : CelesteApp :=
  {| state := s; selected_item := selected_item app; menu_start := menu_start app;
     current_category := current_category app; current_command := current_command app;
     custom_command := custom_command app; splash_timer := splash_timer app;
     running := running app |}.

Definition set_selected_item (n : Z) (app : CelesteApp) : CelesteApp :=
  {| state := state app; selected_item := n; menu_start := menu_start app;
     current_category := current_category app; current_command := current_command app;
     custom_command := custom_command app; splash_timer := splash_timer app;
     running := running app |}.

Definition set_current_category (c : MenuCategory) (app : CelesteApp) : CelesteApp :=
  {| state := state app; selected_item := selected_item app; menu_start := menu_start app;
     current_category := c; current_command := current_command app;
     custom_command := custom_command app; splash_timer := splash_timer app;
     running := running app |}.

Definition set_current_command (p : CommandPtr) (app : CelesteApp) : CelesteApp :=
  {| state := state app; selected_item := selected_item app; menu_start := menu_start app;
     current_category := current_category app; current_command := p;
     custom_command := custom_command app; splash_timer := splash_timer app;
     running := running app |}.

Definition set_splash_timer (t : Z) (app : CelesteApp) : CelesteApp :=
  {| state := state app; selected_item := selected_item app; menu_start := menu_start app;
     current_category := current_category app; current_command := current_command app;
     custom_command := custom_command app; splash_timer := t;
     running := running app |}.

Definition set_running (b : bool) (app : CelesteApp) : CelesteApp :=
  {| state := state app; selected_item := selected_item app; menu_start := menu_start app;
     current_category := current_category app; current_command := current_command app;
     custom_command := custom_command app; splash_timer := splash_timer app;
     running := b |}.

Definition is_submenu (s : AppState) : bool :=
  match s with
  | AppStateTarotMenu | AppStateContentMenu | AppStateNSFWMenu => true
  | _ => false
  end.

(** ** Rendering of a submenu: the draw calls, in order *)

Inductive Font := FontPrimary | FontSecondary.
Inductive Align := AlignCenter | AlignTop | AlignBottom.

Inductive CanvasOp :=
| CanvasClear
| CanvasSetFont (f : Font)
| CanvasDrawStr (x y : Z) (s : option string)
| CanvasDrawStrAligned (x y : Z) (horizontal vertical : Align) (s : option string).

Definition Canvas := list CanvasOp.

(** The array [headers] has an initialiser for three of its four indices;
    the element of [MenuCategoryMain] is the NULL pointer. *)
Definition headers (c : MenuCategory) : option string :=
  match c with
  | MenuCategoryMain => None
  | MenuCategoryTarot => Some "TAROT READINGS"%string
  | MenuCategoryContent => Some "CONTENT GEN"%string
  | MenuCategoryNSFW => Some "NSFW MODE"%string
  end.

(** [cmd->name] *)
Definition name_at (table : list CelesteCommand) (p : nat) : option string :=
  match deref table p with
  | Some e => name e
  | None => None
  end.

(** [cmd->command] *)
Definition command_at (table : list CelesteCommand) (p : nat) : option string :=
  match deref table p with
  | Some e => command e
  | None => None
  end.

Definition visible_count : Z := 4.

Definition visible_start (app : CelesteApp) : Z :=
  if selected_item app >=? visible_count
  then wrap8 (selected_item app - visible_count + 1)
  else 0.

Section Render.

Variable table : list CelesteCommand.

(** Body of the row loop for index [i]: gives the canvas and [y_offset]. *)
Definition draw_row (app : CelesteApp) (i y_offset : Z) (cv : Canvas) : Canvas * Z :=
  match get_menu_item table (current_category app) i with
  | Some p =>
      let cv := if i =? selected_item app
                then cv ++ [CanvasDrawStr 4 y_offset (Some ">"%string)]
                else cv in
      (cv ++ [CanvasDrawStr 12 y_offset (name_at table p)], wrap8 (y_offset + 10))
  | None => (cv, y_offset)
  end.

(** The row loop.  Every turn needs [i - start < visible_count] and adds
    one to [i], so [visible_count] units of [fuel] are never used up from
    [i = start]. *)
Fixpoint row_loop (fuel : nat) (app : CelesteApp) (item_count start i y_offset : Z)
         (cv : Canvas) : Canvas :=
  if (i <? item_count) && (i - start <? visible_count) then
    match fuel with
    | O => cv
    | S fuel' =>
        let (cv', y') := draw_row app i y_offset cv in
        row_loop fuel' app item_count start (wrap8 (i + 1)) y' cv'
    end
  else cv.

Definition render_submenu (app : CelesteApp) (cv : Canvas) : Canvas :=
  let cv := cv ++ [CanvasClear] in
  (* Header *)
  let cv := cv ++ [CanvasSetFont FontPrimary] in
  let cv := cv ++ [CanvasDrawStr 2 10 (headers (current_category app))] in
  (* Menu items *)
  let item_count := count_menu_items table (current_category app) in
  let cv := row_loop (Z.to_nat visible_count) app item_count
              (visible_start app) (visible_start app) 20 cv in
  (* Footer *)
  let cv := cv ++ [CanvasSetFont FontSecondary] in
  cv ++ [CanvasDrawStrAligned 64 62 AlignCenter AlignBottom (Some "OK=Send  Back=Menu"%string)].

End Render.

(** ** Input handling *)

Inductive InputType :=
| InputTypePress
| InputTypeRelease
| InputTypeShort
| InputTypeLong
| InputTypeRepeat.

Inductive InputKey :=
| InputKeyUp
| InputKeyDown
| InputKeyRight
| InputKeyLeft
| InputKeyOk
| InputKeyBack.

Record InputEvent := {
  type : InputType;
  key : InputKey
}.

Definition press (k : InputKey) : InputEvent := {| type := InputTypePress; key := k |}.

(** The two halves of the confirmed send: the assignment in front of the
    blocking [send_command], and the two behind it. *)
Definition begin_send (app : CelesteApp) : CelesteApp :=
  set_state AppStateExecuting app.

Definition finish_send (app : CelesteApp) : CelesteApp :=
  set_selected_item 0 (set_state AppStateMainMenu app).

(** [app->current_command->command], the string handed to [send_command];
    every entry in front of the sentinel has one. *)
Definition command_text (table : list CelesteCommand) (p : nat) : string :=
  match command_at table p with
  | Some s => s
  | None => EmptyString
  end.

Section Input.

Variable table : list CelesteCommand.

Definition on_up (app : CelesteApp) : CelesteApp :=
  match state app with
  | AppStateMainMenu =>
      if selected_item app >? 0 then set_selected_item (wrap8 (selected_item app - 1)) app
      else app
  | AppStateTarotMenu | AppStateContentMenu | AppStateNSFWMenu =>
      if selected_item app >? 0 then set_selected_item (wrap8 (selected_item app - 1)) app
      else app
  | _ => app
  end.

Definition on_down (app : CelesteApp) : CelesteApp :=
  match state app with
  | AppStateMainMenu =>
      if selected_item app <? 3 then set_selected_item (wrap8 (selected_item app + 1)) app
      else app
  | AppStateTarotMenu | AppStateContentMenu | AppStateNSFWMenu =>
      let item_count := count_menu_items table (current_category app) in
      if selected_item app <? item_count - 1
      then set_selected_item (wrap8 (selected_item app + 1)) app
      else app
  | _ => app
  end.

Definition enter_submenu (s : AppState) (c : MenuCategory) (app : CelesteApp) : CelesteApp :=
  set_selected_item 0 (set_current_category c (set_state s app)).

Definition on_ok (app : CelesteApp) (h : Hal) : CelesteApp * Hal :=
  match state app with
  | AppStateSplash =>
      (set_selected_item 0 (set_state AppStateMainMenu app), h)
  | AppStateMainMenu =>
      if selected_item app =? 0 then
        (enter_submenu AppStateTarotMenu MenuCategoryTarot app, h)
      else if selected_item app =? 1 then
        (enter_submenu AppStateContentMenu MenuCategoryContent app, h)
      else if selected_item app =? 2 then
        (enter_submenu AppStateNSFWMenu MenuCategoryNSFW app, h)
      else (app, h)
  | AppStateTarotMenu | AppStateContentMenu | AppStateNSFWMenu =>
      match get_menu_item table (current_category app) (selected_item app) with
      | Some p => (set_state AppStateConfirm (set_current_command (Some p) app), h)
      | None => (app, h)
      end
  | AppStateConfirm =>
      match current_command app with
      | Some p =>
          let app := begin_send app in
          let h := send_command (command_text table p) h in
          let h := furi_delay_ms 1000 h in
          (finish_send app, h)
      | None => (app, h)
      end
  | _ => (app, h)
  end.

Definition on_back (app : CelesteApp) : CelesteApp :=
  match state app with
  | AppStateSplash => set_running false app
  | AppStateMainMenu => set_running false app
  | AppStateTarotMenu | AppStateContentMenu | AppStateNSFWMenu =>
      set_selected_item 0 (set_state AppStateMainMenu app)
  | AppStateConfirm =>
      let app := set_state AppStateTarotMenu app in
      match current_category app with
      | MenuCategoryContent => set_state AppStateContentMenu app
      | MenuCategoryNSFW => set_state AppStateNSFWMenu app
      | _ => app
      end
  | AppStateExecuting =>
      set_selected_item 0 (set_state AppStateMainMenu app)
  | _ => app
  end.

Definition input_callback (input_event : InputEvent) (app : CelesteApp) (h : Hal)
  : CelesteApp * Hal :=
  match type input_event with
  | InputTypePress =>
      match key input_event with
      | InputKeyUp => (on_up app, h)
      | InputKeyDown => (on_down app, h)
      | InputKeyOk => on_ok app h
      | InputKeyBack => (on_back app, h)
      | _ => (app, h)
      end
  | _ => (app, h)
  end.

End Input.

(** ** Application loop *)

(** The record as [celeste_cli_app] fills it in; [menu_start] is never
    assigned and keeps whatever the allocation held. *)
Definition app_init (menu_start0 : Z) : CelesteApp :=
  {| state := AppStateSplash;
     selected_item := 0;
     menu_start := menu_start0;
     current_category := MenuCategoryMain;
     current_command := None;
     custom_command := repeat zero MAX_COMMAND_LENGTH;
     splash_timer := 0;
     running := true |}.

(** The state change of one turn of the main loop. *)
Definition main_loop_tick (app : CelesteApp) : CelesteApp :=
  match state app with
  | AppStateSplash =>
      let app := set_splash_timer (wrap32 (splash_timer app + 1)) app in
      if splash_timer app >=? 300
      then set_selected_item 0 (set_state AppStateMainMenu app)
      else app
  | _ => app
  end.

(** States of the record that the program can be in: after start-up, after
    a turn of the main loop, after a call of the input handler, and, while
    a confirmed send is blocking, the record with [AppStateExecuting]. *)
Inductive reachable (table : list CelesteCommand) : CelesteApp -> Prop :=
| reach_init : forall menu_start0,
    0 <= menu_start0 < 256 -> reachable table (app_init menu_start0)
| reach_tick : forall app,
    reachable table app -> reachable table (main_loop_tick app)
| reach_input : forall app ev h,
    reachable table app -> reachable table (fst (input_callback table ev app h))
| reach_sending : forall app p,
    reachable table app ->
    state app = AppStateConfirm ->
    current_command app = Some p ->
    reachable table (begin_send app).

(** * Vocabulary of the properties *)

(** Number of entries of a category in front of the sentinel. *)
Definition matches (cat : MenuCategory) (rest : list CelesteCommand) : Z :=
  Z.of_nat (List.length (filter (in_category cat) (entries rest))).

(** The lookups of every index below the count, in order. *)
Definition lookups (table : list CelesteCommand) (cat : MenuCategory) : list CommandPtr :=
  map (fun i => get_menu_item table cat (Z.of_nat i))
      (seq 0 (Z.to_nat (count_menu_items table cat))).

(** [op] does nothing but append [evs] to the trace. *)
Definition appends (op : HalOp) (evs : list HalEvent) : Prop :=
  forall h, op h =
            {| usb_config := usb_config h;
               usb_polls := usb_polls h;
               host_connected := host_connected h;
               hal_trace := hal_trace h ++ evs |}.

(** The events of one keystroke. *)
Definition keystroke (key : HidKeyboardKey) (shift : bool) : list HalEvent :=
  (if shift then [EvKbPress HID_KEYBOARD_LEFT_SHIFT] else [])
    ++ [EvKbPress key; EvDelayMs 20; EvKbRelease key]
    ++ (if shift then [EvKbRelease HID_KEYBOARD_LEFT_SHIFT] else [])
    ++ [EvDelayMs 10].

(** A HAL state with an empty trace, to read off what an operation emits. *)
Definition fresh_hal : Hal :=
  {| usb_config := usb_cdc_single;
     usb_polls := 0;
     host_connected := fun _ => false;
     hal_trace := [] |}.

Definition emitted (op : HalOp) : list HalEvent := hal_trace (op fresh_hal).

(** The characters [send_char] has a branch for. *)
Definition mapped (c : ascii) : bool :=
  ((code "a" <=? code c) && (code c <=? code "z"))
  || ((code "A" <=? code c) && (code c <=? code "Z"))
  || ((code "0" <=? code c) && (code c <=? code "9"))
  || (code c =? code " ")
  || (code c =? code "010")
  || (code c =? code "-")
  || (code c =? code "034").

(** The string of the encoding scenario: A b 1 space hyphen double-quote newline. *)
Definition scenario : string := Eval cbv in ("Ab1 -" ++ dq ++ nl)%string.

(** [k] unanswered polls, each followed by the 10 ms wait. *)
Definition polling (k : nat) : list HalEvent :=
  concat (repeat [EvUsbIsConnected false; EvDelayMs 10] k).

Definition is_key_event (e : HalEvent) : bool :=
  match e with
  | EvKbPress _ | EvKbRelease _ => true
  | _ => false
  end.

Definition key_events (evs : list HalEvent) : list HalEvent := filter is_key_event evs.

Definition delay_of (e : HalEvent) : Z :=
  match e with
  | EvDelayMs ms => ms
  | _ => 0
  end.

(** Time spent in delays, in milliseconds. *)
Definition elapsed_ms (evs : list HalEvent) : Z :=
  fold_right (fun e acc => delay_of e + acc) 0 evs.

(** What [send_command] does to the HAL when nobody answers. *)
Definition timeout_events : list HalEvent :=
  [EvUsbSetConfig usb_hid] ++ polling 500 ++ [EvUsbIsConnected false; EvUsbIsConnected false].

(** The HAL after [k] unanswered polls and the poll that ends the loop. *)
Definition polled (k : nat) (h : Hal) : Hal :=
  {| usb_config := usb_config h;
     usb_polls := S (usb_polls h + k);
     host_connected := host_connected h;
     hal_trace :=
       hal_trace h ++ polling k ++ [EvUsbIsConnected (host_connected h (usb_polls h + k))] |}.

(** A host that answers the third poll and every later one. *)
Definition late_host : Hal :=
  {| usb_config := usb_cdc_single;
     usb_polls := 0;
     host_connected := fun n => (2 <=? n)%nat;
     hal_trace := [] |}.

(** The interface of the last configuration call in a trace. *)
Definition last_set_config (evs : list HalEvent) : option FuriHalUsbInterface :=
  fold_left (fun acc e => match e with EvUsbSetConfig i => Some i | _ => acc end) evs None.

(** A host that is connected from the first poll on; the serial
    configuration is selected when [send_command] is called. *)
Definition plugged_host : Hal :=
  {| usb_config := usb_cdc_single;
     usb_polls := 0;
     host_connected := fun _ => true;
     hal_trace := [] |}.

(** Indices the viewport shows: from [start], at most [visible_count] of
    them, and none from [item_count] on. *)
Definition visible_rows (item_count start : Z) : list Z :=
  map Z.of_nat
      (seq (Z.to_nat start) (Z.to_nat (Z.min visible_count (item_count - start)))).

(** The row loop as a fold of its body over a list of indices. *)
Definition draw_rows (table : list CelesteCommand) (app : CelesteApp)
           (rows : list Z) (y_offset : Z) (cv : Canvas) : Canvas * Z :=
  fold_left (fun st i => draw_row table app i (snd st) (fst st)) rows (cv, y_offset).

(** An array with ten entries in one category, for the scrolling scenario. *)
Definition ten_items : list CelesteCommand :=
  map (fun n => entry n ("run " ++ n ++ nl)%string MenuCategoryContent)
      ["zero"; "one"; "two"; "three"; "four"; "five"; "six"; "seven"; "eight"; "nine"]%string
  ++ [{| name := None; command := None; category := MenuCategoryMain |}].

Definition browsing (s : AppState) (c : MenuCategory) (sel : Z) : CelesteApp :=
  set_selected_item sel (set_current_category c (set_state s (app_init 0))).

(** Number of items the selection of a screen ranges over: the four rows
    [render_main_menu] draws on the main menu, the entries of the current
    category on a submenu and on the two screens that follow it.  The splash
    screen has no list. *)
Definition item_count (table : list CelesteCommand) (app : CelesteApp) : option Z :=
  match state app with
  | AppStateMainMenu => Some 4
  | AppStateTarotMenu | AppStateContentMenu | AppStateNSFWMenu
  | AppStateConfirm | AppStateExecuting =>
      Some (count_menu_items table (current_category app))
  | _ => None
  end.

Definition selection_in_bounds (table : list CelesteCommand) (app : CelesteApp) : Prop :=
  match item_count table app with
  | Some n => 0 <= selected_item app <= n - 1
  | None => True
  end.

(** The staged command is the entry under the cursor. *)
Definition staged (table : list CelesteCommand) (app : CelesteApp) : Prop :=
  current_category app <> MenuCategoryMain
  /\ 0 <= selected_item app <= count_menu_items table (current_category app) - 1
  /\ exists p, current_command app = Some p
               /\ get_menu_item table (current_category app) (selected_item app) = Some p.

Definition browsing_inv (table : list CelesteCommand) (c : MenuCategory) (app : CelesteApp)
  : Prop :=
  current_category app = c
  /\ 0 <= selected_item app <= count_menu_items table c - 1.

(** What holds of the record in every state the program can be in. *)
Definition app_inv (table : list CelesteCommand) (app : CelesteApp) : Prop :=
  match state app with
  | AppStateSplash => True
  | AppStateMainMenu => 0 <= selected_item app <= 3
  | AppStateTarotMenu => browsing_inv table MenuCategoryTarot app
  | AppStateContentMenu => browsing_inv table MenuCategoryContent app
  | AppStateNSFWMenu => browsing_inv table MenuCategoryNSFW app
  | AppStateConfirm => staged table app
  | AppStateExecuting => staged table app
  | AppStateCustomInput => False
  end.

(** A sequence of events, handled one after the other. *)
Definition run (table : list CelesteCommand) (evs : list InputEvent)
           (s : CelesteApp * Hal) : CelesteApp * Hal :=
  fold_left (fun s ev => input_callback table ev (fst s) (snd s)) evs s.

Definition is_move (ev : InputEvent) : bool :=
  match key ev with
  | InputKeyUp | InputKeyDown => true
  | _ => false
  end.

(** The record after OK on the splash screen, OK on the main menu at
    Tarot, one Down, and OK on the second Tarot entry. *)
Definition staged_app : CelesteApp :=
  fst (run commands
         [press InputKeyOk; press InputKeyOk; press InputKeyDown; press InputKeyOk]
         (app_init 0, fresh_hal)).

(** * More of the program, and the words for its properties *)

(** ** Text emitter *)

(** The characters of a C string: those in front of the first NUL. *)
Fixpoint c_chars (s : string) : list ascii :=
  match s with
  | EmptyString => []
  | String c rest => if code c =? 0 then [] else c :: c_chars rest
  end.

(** The keys held down after a run of events, from those held before it. *)
Fixpoint held_after (evs : list HalEvent) (held : list HidKeyboardKey)
  : list HidKeyboardKey :=
  match evs with
  | [] => held
  | EvKbPress k :: rest => held_after rest (k :: held)
  | EvKbRelease k :: rest => held_after rest (remove Z.eq_dec k held)
  | _ :: rest => held_after rest held
  end.

(** Presses of a key other than shift. *)
Definition is_stroke (e : HalEvent) : bool :=
  match e with
  | EvKbPress k => negb (k =? HID_KEYBOARD_LEFT_SHIFT)
  | _ => false
  end.

Definition strokes (evs : list HalEvent) : Z :=
  Z.of_nat (List.length (filter is_stroke evs)).

Definition is_newline (c : ascii) : bool := code c =? 10.

Definition count_chars (f : ascii -> bool) (cs : list ascii) : Z :=
  Z.of_nat (List.length (filter f cs)).

(** What a keystroke stands for on the host side: the key, and 1000 more
    when shift is held.  Read off the first presses of a run of events. *)
Definition stroke_code (evs : list HalEvent) : Z :=
  match evs with
  | EvKbPress k :: EvKbPress k' :: _ => 1000 + k'
  | EvKbPress k :: _ => k
  | _ => 0
  end.

(** The character a US keyboard layout gives for a stroke code. *)
Definition layout_char (n : Z) : ascii :=
  if (4 <=? n) && (n <=? 29) then ascii_of_nat (Z.to_nat (code "a" + (n - 4)))
  else if (1004 <=? n) && (n <=? 1029) then ascii_of_nat (Z.to_nat (code "A" + (n - 1004)))
  else if (30 <=? n) && (n <=? 38) then ascii_of_nat (Z.to_nat (code "1" + (n - 30)))
  else if n =? 39 then "0"%char
  else if n =? 40 then "010"%char
  else if n =? 44 then " "%char
  else if n =? 45 then "-"%char
  else if n =? 1052 then "034"%char
  else zero.


(** ** The other screens *)

(** [render_splash] also draws a frame; a frame of the screen is a list of
    draw calls, those of [CanvasOp] and that one. *)
Inductive DrawCall :=
| Draw (op : CanvasOp)
| CanvasDrawFrame (x y width height : Z).

Definition Screen := list DrawCall.

Definition render_splash (app : CelesteApp) (scr : Screen) : Screen :=
  scr ++
  [ Draw CanvasClear;
    (* Draw title *)
    Draw (CanvasSetFont FontPrimary);
    Draw (CanvasDrawStrAligned 64 10 AlignCenter AlignTop (Some "CELESTE CLI"%string));
    (* Draw subtitle *)
    Draw (CanvasSetFont FontSecondary);
    Draw (CanvasDrawStrAligned 64 25 AlignCenter AlignTop (Some "Remote Controller"%string));
    (* Draw Celeste symbol/icon placeholder *)
    CanvasDrawFrame 50 35 28 20;
    Draw (CanvasDrawStrAligned 64 42 AlignCenter AlignTop (Some "C"%string));
    (* Instructions *)
    Draw (CanvasSetFont FontSecondary);
    Draw (CanvasDrawStrAligned 64 58 AlignCenter AlignBottom (Some "Press OK to start"%string)) ].

Definition menu_items : list string :=
  ["Tarot Readings"; "Content Gen"; "NSFW Mode"; "Settings"]%string.

(** Body of the row loop of [render_main_menu] for index [i]. *)
Definition main_menu_row (app : CelesteApp) (st : Canvas * Z) (i : nat) : Canvas * Z :=
  let cv := fst st in
  let y_offset := snd st in
  let cv := if Z.of_nat i =? selected_item app
            then cv ++ [CanvasDrawStr 4 y_offset (Some ">"%string)]
            else cv in
  (cv ++ [CanvasDrawStr 12 y_offset (nth_error menu_items i)], wrap8 (y_offset + 10)).

Definition render_main_menu (app : CelesteApp) (cv : Canvas) : Canvas :=
  let cv := cv ++ [CanvasClear] in
  (* Header *)
  let cv := cv ++ [CanvasSetFont FontPrimary] in
  let cv := cv ++ [CanvasDrawStr 2 10 (Some "CELESTE CLI"%string)] in
  (* Menu items *)
  let cv := fst (fold_left (main_menu_row app) (seq 0 4) (cv, 20)) in
  (* Footer *)
  let cv := cv ++ [CanvasSetFont FontSecondary] in
  cv ++ [CanvasDrawStrAligned 64 62 AlignCenter AlignBottom
           (Some "OK=Select  Back=Exit"%string)].

(** The [n] bytes [strncpy] writes: the characters of the source up to its
    NUL, then NULs. *)
Fixpoint strncpy_bytes (src : string) (n : nat) : list ascii :=
  match n with
  | O => []
  | S n' =>
      match src with
      | EmptyString => zero :: strncpy_bytes EmptyString n'
      | String c rest =>
          if code c =? 0 then zero :: strncpy_bytes EmptyString n'
          else c :: strncpy_bytes rest n'
      end
  end.

Definition strncpy (dst : list ascii) (src : string) (n : nat) : list ascii :=
  strncpy_bytes src n ++ skipn n dst.

(** [buf[i] = c], for [i] inside the array. *)
Definition store (i : nat) (c : ascii) (buf : list ascii) : list ascii :=
  firstn i buf ++ c :: skipn (S i) buf.

(** The string a [char] array holds: its bytes in front of the first NUL. *)
Fixpoint buffer_string (buf : list ascii) : string :=
  match buf with
  | [] => EmptyString
  | c :: rest => if code c =? 0 then EmptyString else String c (buffer_string rest)
  end.

(** The array [preview] of [render_confirm] after the copy; [stack] is what
    its 32 bytes held before. *)
Definition preview_buffer (stack : list ascii) (command : string) : list ascii :=
  store 30 zero (strncpy stack command 30).

Definition render_confirm (table : list CelesteCommand) (stack : list ascii)
           (app : CelesteApp) (cv : Canvas) : Canvas :=
  let cv := cv ++ [CanvasClear] in
  let cv := cv ++ [CanvasSetFont FontPrimary] in
  let cv := cv ++ [CanvasDrawStrAligned 64 10 AlignCenter AlignTop
                     (Some "SEND COMMAND?"%string)] in
  let cv :=
    match current_command app with
    | Some p =>
        let cv := cv ++ [CanvasSetFont FontSecondary] in
        (* Show command name *)
        let cv := cv ++ [CanvasDrawStrAligned 64 25 AlignCenter AlignTop (name_at table p)] in
        (* Show command preview (truncated) *)
        let preview := preview_buffer stack (command_text table p) in
        cv ++ [CanvasDrawStrAligned 64 40 AlignCenter AlignTop
                 (Some (buffer_string preview))]
    | None => cv
    end in
  let cv := cv ++ [CanvasSetFont FontSecondary] in
  cv ++ [CanvasDrawStrAligned 64 58 AlignCenter AlignBottom
           (Some "OK=Send  Back=Cancel"%string)].

Definition render_executing (app : CelesteApp) (cv : Canvas) : Canvas :=
  cv ++ [ CanvasClear;
          CanvasSetFont FontPrimary;
          CanvasDrawStrAligned 64 30 AlignCenter AlignCenter (Some "SENDING..."%string);
          CanvasSetFont FontSecondary;
          CanvasDrawStrAligned 64 45 AlignCenter AlignCenter
            (Some "Check host terminal"%string) ].

(** The draw calls a renderer of [CanvasOp]s adds to a frame. *)
Definition drawn (r : Canvas -> Canvas) (scr : Screen) : Screen :=
  scr ++ map Draw (r []).

Definition render_callback (table : list CelesteCommand) (stack : list ascii)
           (app : CelesteApp) (scr : Screen) : Screen :=
  match state app with
  | AppStateSplash => render_splash app scr
  | AppStateMainMenu => drawn (render_main_menu app) scr
  | AppStateTarotMenu | AppStateContentMenu | AppStateNSFWMenu =>
      drawn (render_submenu table app) scr
  | AppStateConfirm => drawn (render_confirm table stack app) scr
  | AppStateExecuting => drawn (render_executing app) scr
  | AppStateCustomInput => scr
  end.

(** The selection marker. *)
Definition is_marker (op : CanvasOp) : bool :=
  match op with
  | CanvasDrawStr x _ (Some s) => (x =? 4) && String.eqb s ">"
  | _ => false
  end.

Definition markers (cv : Canvas) : Z := Z.of_nat (List.length (filter is_marker cv)).

(** Draw calls that are handed a string. *)
Definition has_string (d : DrawCall) : bool :=
  match d with
  | Draw (CanvasDrawStr _ _ None) | Draw (CanvasDrawStrAligned _ _ _ _ None) => false
  | _ => true
  end.

(** ** The main loop *)

(** One turn of the loop of [celeste_cli_app]: the splash timer, the
    request to redraw (which leaves no trace here), and the 50 ms sleep. *)
Definition main_loop_turn (s : CelesteApp * Hal) : CelesteApp * Hal :=
  (main_loop_tick (fst s), furi_delay_ms 50 (snd s)).

(** [n] turns in a row, no input arriving in between. *)
Definition main_loop_turns (n : nat) (s : CelesteApp * Hal) : CelesteApp * Hal :=
  Nat.iter n main_loop_turn s.

(** The rows of names in a frame: height and string of every draw call at
    the column of the names. *)
Definition name_rows (cv : Canvas) : list (Z * option string) :=
  flat_map (fun op => match op with
                      | CanvasDrawStr x y s => if x =? 12 then [(y, s)] else []
                      | _ => []
                      end) cv.

(** The name of the entry a category has at an index. *)
Definition item_name (table : list CelesteCommand) (cat : MenuCategory) (i : Z)
  : option string :=
  match get_menu_item table cat i with
  | Some p => name_at table p
  | None => None
  end.

(** * Properties *)

(** ** The catalog lookups *)

Lemma MenuCategory_eqb_eq : forall a b, MenuCategory_eqb a b = true <-> a = b.
Proof. intros [] []; simpl; split; congruence. Qed.

Lemma wrap8_small : forall z, 0 <= z < 256 -> wrap8 z = z.
Proof. intros z Hz. unfold wrap8. apply Z.mod_small. exact Hz. Qed.

Lemma wrap32_small : forall z, 0 <= z < 4294967296 -> wrap32 z = z.
Proof. intros z Hz. unfold wrap32. apply Z.mod_small. exact Hz. Qed.

Section CatalogFacts.

Variable cat : MenuCategory.

Lemma matches_nonneg : forall rest, 0 <= matches cat rest.
Proof. intros rest. unfold matches. lia. Qed.

Lemma matches_cons : forall e rest,
    matches cat (e :: rest) =
    match name e with
    | None => 0
    | Some _ => (if in_category cat e then 1 else 0) + matches cat rest
    end.
Proof.
  intros e rest. unfold matches. simpl.
  destruct (name e); [|reflexivity].
  simpl. destruct (in_category cat e); simpl List.length; lia.
Qed.

Lemma positions_from_cons : forall start e es,
    positions_from start (e :: es) cat =
    if in_category cat e
    then start :: positions_from (S start) es cat
    else positions_from (S start) es cat.
Proof.
  intros start e es. unfold positions_from. simpl.
  destruct (in_category cat e); reflexivity.
Qed.

Lemma positions_from_length : forall es start,
    Z.of_nat (List.length (positions_from start es cat)) =
    Z.of_nat (List.length (filter (in_category cat) es)).
Proof.
  induction es as [|e es IH]; intros start.
  - reflexivity.
  - rewrite positions_from_cons. simpl filter.
    destruct (in_category cat e); simpl List.length; rewrite ?Nat2Z.inj_succ, IH; reflexivity.
Qed.

Lemma count_loop_spec : forall rest count,
    0 <= count ->
    count + matches cat rest < 256 ->
    count_loop rest cat count = count + matches cat rest.
Proof.
  induction rest as [|e rest IH]; intros count Hc Hb.
  - unfold matches. simpl. lia.
  - rewrite matches_cons in *. simpl.
    destruct (name e); [|lia].
    pose proof (matches_nonneg rest) as Hm.
    unfold in_category in *.
    destruct (MenuCategory_eqb (category e) cat).
    + rewrite wrap8_small by lia. rewrite IH by lia. lia.
    + rewrite IH by lia. lia.
Qed.

(** Inside the range the loop returns the position of the entry asked for. *)
Lemma get_loop_found : forall rest index count i,
    0 <= count ->
    count + matches cat rest < 256 ->
    count <= index < count + matches cat rest ->
    get_loop rest cat index count i =
    nth_error (positions_from i (entries rest) cat) (Z.to_nat (index - count)).
Proof.
  induction rest as [|e rest IH]; intros index count i Hc Hb Hi.
  - unfold matches in Hi. simpl in Hi. lia.
  - rewrite matches_cons in *. simpl.
    destruct (name e) as [n|]; [|lia].
    rewrite positions_from_cons.
    pose proof (matches_nonneg rest) as Hm.
    unfold in_category in *.
    destruct (MenuCategory_eqb (category e) cat).
    + destruct (Z.eqb_spec count index) as [->|Hne].
      * rewrite Z.sub_diag. reflexivity.
      * rewrite wrap8_small by lia.
        rewrite IH by lia.
        replace (Z.to_nat (index - count)) with (S (Z.to_nat (index - (count + 1)))) by lia.
        reflexivity.
    + apply IH; lia.
Qed.

(** Outside the range the loop runs into the sentinel and returns NULL. *)
Lemma get_loop_missing : forall rest index count i,
    0 <= count ->
    count + matches cat rest < 256 ->
    index < count \/ count + matches cat rest <= index ->
    get_loop rest cat index count i = None.
Proof.
  induction rest as [|e rest IH]; intros index count i Hc Hb Hi.
  - reflexivity.
  - rewrite matches_cons in *. simpl.
    destruct (name e) as [n|]; [|reflexivity].
    pose proof (matches_nonneg rest) as Hm.
    unfold in_category in *.
    destruct (MenuCategory_eqb (category e) cat).
    + destruct (Z.eqb_spec count index) as [->|Hne]; [lia|].
      rewrite wrap8_small by lia.
      apply IH; lia.
    + apply IH; lia.
Qed.

(** A pointer the loop returns is an element in front of the sentinel, of
    the category asked for. *)
Lemma get_loop_valid : forall rest index count i p,
    get_loop rest cat index count i = Some p ->
    (i <= p)%nat /\ (p - i < List.length (entries rest))%nat /\
    exists e n, nth_error rest (p - i) = Some e /\ name e = Some n /\ category e = cat.
Proof.
  induction rest as [|e rest IH]; intros index count i p H; simpl in H.
  - discriminate.
  - simpl entries.
    destruct (name e) as [n|] eqn:Hn; [|discriminate].
    simpl List.length.
    destruct (MenuCategory_eqb (category e) cat) eqn:Hcat.
    + destruct (count =? index).
      * inversion H; subst p. split; [lia|]. split; [lia|].
        rewrite Nat.sub_diag. exists e, n. simpl.
        apply MenuCategory_eqb_eq in Hcat. auto.
      * apply IH in H. destruct H as (Hle & Hlt & e' & n' & Hnth & Hname & Hc).
        split; [lia|]. split; [lia|]. exists e', n'.
        replace (p - i)%nat with (S (p - S i)) by lia. simpl. auto.
    + apply IH in H. destruct H as (Hle & Hlt & e' & n' & Hnth & Hname & Hc).
      split; [lia|]. split; [lia|]. exists e', n'.
      replace (p - i)%nat with (S (p - S i)) by lia. simpl. auto.
Qed.

End CatalogFacts.

Lemma count_menu_items_spec : forall table cat,
    matches cat table < 256 ->
    count_menu_items table cat = matches cat table.
Proof.
  intros table cat Hb. unfold count_menu_items.
  rewrite count_loop_spec; lia.
Qed.

Lemma get_menu_item_found : forall table cat index,
    matches cat table < 256 ->
    0 <= index < count_menu_items table cat ->
    get_menu_item table cat index = nth_error (category_positions table cat) (Z.to_nat index).
Proof.
  intros table cat index Hb Hi.
  rewrite count_menu_items_spec in Hi by exact Hb.
  unfold get_menu_item, category_positions.
  rewrite get_loop_found by lia.
  rewrite Z.sub_0_r. reflexivity.
Qed.

Lemma get_menu_item_missing : forall table cat index,
    matches cat table < 256 ->
    count_menu_items table cat <= index ->
    get_menu_item table cat index = None.
Proof.
  intros table cat index Hb Hi.
  rewrite count_menu_items_spec in Hi by exact Hb.
  unfold get_menu_item. apply get_loop_missing; lia.
Qed.

Lemma get_menu_item_valid : forall table cat index p,
    get_menu_item table cat index = Some p ->
    (p < List.length (entries table))%nat /\
    exists e n, deref table p = Some e /\ name e = Some n /\ category e = cat.
Proof.
  intros table cat index p H. unfold get_menu_item in H.
  apply get_loop_valid in H. destruct H as (_ & Hlt & H).
  rewrite Nat.sub_0_r in *. auto.
Qed.

Lemma commands_matches : forall cat, matches cat commands <= 5.
Proof. intros []; vm_compute; discriminate. Qed.

Lemma commands_counts :
  count_menu_items commands MenuCategoryMain = 0 /\
  count_menu_items commands MenuCategoryTarot = 5 /\
  count_menu_items commands MenuCategoryContent = 4 /\
  count_menu_items commands MenuCategoryNSFW = 3.
Proof. repeat split; reflexivity. Qed.

Lemma lookups_spec : forall table cat,
    matches cat table < 256 ->
    lookups table cat = map Some (category_positions table cat).
Proof.
  intros table cat Hb.
  apply nth_error_ext. intros k.
  unfold lookups.
  rewrite !nth_error_map.
  pose proof (count_menu_items_spec table cat Hb) as Hcount.
  assert (Hlen : Z.of_nat (List.length (category_positions table cat)) = matches cat table).
  { unfold category_positions. rewrite positions_from_length. reflexivity. }
  destruct (Nat.lt_ge_cases k (Z.to_nat (count_menu_items table cat))) as [Hk|Hk].
  - rewrite nth_error_seq. 
    destruct (Nat.ltb_spec k (Z.to_nat (count_menu_items table cat))); [|lia].
    simpl. rewrite get_menu_item_found by lia.
    rewrite Nat2Z.id.
    destruct (nth_error (category_positions table cat) k) eqn:E; [reflexivity|].
    apply nth_error_None in E. lia.
  - rewrite nth_error_seq.
    destruct (Nat.ltb_spec k (Z.to_nat (count_menu_items table cat))); [lia|].
    simpl.
    destruct (nth_error (category_positions table cat) k) eqn:E; [|reflexivity].
    assert (k < List.length (category_positions table cat))%nat.
    { apply nth_error_Some. congruence. }
    lia.
Qed.

(** Positions of the three categories in the array. *)
Lemma commands_positions :
  category_positions commands MenuCategoryMain = [] /\
  category_positions commands MenuCategoryTarot = [0; 1; 2; 3; 4]%nat /\
  category_positions commands MenuCategoryContent = [5; 6; 7; 8]%nat /\
  category_positions commands MenuCategoryNSFW = [9; 10; 11]%nat.
Proof. repeat split; reflexivity. Qed.

(** C4.  For every category, [count_menu_items] is the number of entries of
    that category in front of the sentinel; the lookups of the indices
    below the count are, in order, the array positions of exactly those
    entries in declaration order (each once, none left out), each lookup
    pointing at a named entry of the category; and every index from the
    count on gives NULL. *)
Theorem catalog_lookup_correct : forall cat,
    count_menu_items commands cat
    = Z.of_nat (List.length (filter (in_category cat) (entries commands)))
    /\ lookups commands cat = map Some (category_positions commands cat)
    /\ (forall i, 0 <= i < count_menu_items commands cat ->
        exists p e n,
          get_menu_item commands cat i = Some p
          /\ nth_error (category_positions commands cat) (Z.to_nat i) = Some p
          /\ deref commands p = Some e /\ name e = Some n /\ category e = cat)
    /\ (forall i, count_menu_items commands cat <= i ->
        get_menu_item commands cat i = None).
Proof.
  intros cat.
  assert (Hb : matches cat commands < 256).
  { pose proof (commands_matches cat). lia. }
  split; [|split; [|split]].
  - apply count_menu_items_spec. exact Hb.
  - apply lookups_spec. exact Hb.
  - intros i Hi.
    pose proof (get_menu_item_found commands cat i Hb Hi) as Hfound.
    destruct (get_menu_item commands cat i) as [p|] eqn:Hget.
    + destruct (get_menu_item_valid _ _ _ _ Hget) as (_ & e & n & He & Hn & Hc).
      exists p, e, n. auto.
    + symmetry in Hfound. apply nth_error_None in Hfound.
      assert (Z.of_nat (List.length (category_positions commands cat)) = matches cat commands).
      { unfold category_positions. apply positions_from_length. }
      rewrite count_menu_items_spec in Hi by exact Hb. lia.
  - intros i Hi. apply get_menu_item_missing; assumption.
Qed.

Lemma catalog_lookup_correct_witness :
  (exists p e n,
      get_menu_item commands MenuCategoryContent 3 = Some p
      /\ nth_error (category_positions commands MenuCategoryContent) (Z.to_nat 3) = Some p
      /\ deref commands p = Some e /\ name e = Some n /\ category e = MenuCategoryContent)
  /\ get_menu_item commands MenuCategoryContent 4 = None.
Proof.
  destruct (catalog_lookup_correct MenuCategoryContent) as (_ & _ & Hin & Hout).
  split.
  - apply (Hin 3). split; [discriminate | reflexivity].
  - apply (Hout 4). vm_compute. discriminate.
Defined.

(** ** The HID text emitter *)

Lemma appends_emit : forall e, appends (emit e) [e].
Proof. intros e h. reflexivity. Qed.

Lemma appends_skip : appends skip_op [].
Proof. intros [c p f t]. unfold skip_op. simpl. rewrite app_nil_r. reflexivity. Qed.

Lemma appends_seq : forall a b xs ys,
    appends a xs -> appends b ys -> appends (a ;; b) (xs ++ ys).
Proof.
  intros a b xs ys Ha Hb h. unfold seq_op.
  rewrite Ha, Hb. simpl. rewrite app_assoc. reflexivity.
Qed.

Lemma send_key_appends : forall key shift,
    appends (send_key key shift) (keystroke key shift).
Proof.
  intros key shift h.
  unfold send_key, keystroke, seq_op, skip_op, furi_delay_ms,
    furi_hal_hid_kb_press, furi_hal_hid_kb_release, emit.
  destruct h as [c p f t].
  destruct shift; simpl; rewrite <- ?app_assoc; reflexivity.
Qed.

Lemma send_char_appends : forall c, exists evs, appends (send_char c) evs.
Proof.
  intros c. unfold send_char.
  repeat match goal with
         | |- context [if ?b then _ else _] => destruct b
         end;
    eauto using send_key_appends, appends_skip, appends_seq, appends_emit.
Qed.

Lemma type_command_appends : forall command, exists evs, appends (type_command command) evs.
Proof.
  intros command. unfold type_command.
  generalize (seq 0 (strlen command)) as idx.
  induction idx as [|i idx IH] using rev_ind.
  - exists []. intros h. apply appends_skip.
  - destruct IH as [xs Hxs].
    destruct (send_char_appends (char_at command i)) as [ys Hys].
    exists (xs ++ ys). intros h.
    rewrite fold_left_app. simpl.
    rewrite Hxs, Hys. simpl. rewrite app_assoc. reflexivity.
Qed.

Lemma appends_emitted : forall op evs, appends op evs -> appends op (emitted op).
Proof.
  intros op evs H. unfold emitted. rewrite (H fresh_hal). simpl. exact H.
Qed.

Lemma send_char_emitted : forall c, appends (send_char c) (emitted (send_char c)).
Proof.
  intros c. destruct (send_char_appends c) as [evs H].
  exact (appends_emitted _ _ H).
Qed.

Lemma type_command_emitted : forall command,
    appends (type_command command) (emitted (type_command command)).
Proof.
  intros command. destruct (type_command_appends command) as [evs H].
  exact (appends_emitted _ _ H).
Qed.

Lemma send_char_unmapped : forall c h, mapped c = false -> send_char c h = h.
Proof.
  intros c h.
  destruct c as [[] [] [] [] [] [] [] []]; vm_compute; intros H;
    solve [reflexivity | discriminate H].
Qed.

(** C2.  Typing the string A b 1 space hyphen double-quote newline appends
    exactly the keystrokes A with shift, b, 1, spacebar, minus, apostrophe
    with shift, return: each a press, 20 ms held, the release, and 10 ms
    between keys, shift pressed before and released after its key, and
    100 ms more after return.  A character that is no letter, digit, space,
    newline, hyphen or double-quote leaves the HAL as it was: no event. *)
Theorem encoding_scenario :
  (forall h,
      hal_trace (type_command scenario h) =
      hal_trace h ++
        [ EvKbPress HID_KEYBOARD_LEFT_SHIFT; EvKbPress HID_KEYBOARD_A; EvDelayMs 20;
          EvKbRelease HID_KEYBOARD_A; EvKbRelease HID_KEYBOARD_LEFT_SHIFT; EvDelayMs 10;
          EvKbPress HID_KEYBOARD_B; EvDelayMs 20; EvKbRelease HID_KEYBOARD_B; EvDelayMs 10;
          EvKbPress HID_KEYBOARD_1; EvDelayMs 20; EvKbRelease HID_KEYBOARD_1; EvDelayMs 10;
          EvKbPress HID_KEYBOARD_SPACEBAR; EvDelayMs 20; EvKbRelease HID_KEYBOARD_SPACEBAR;
          EvDelayMs 10;
          EvKbPress HID_KEYBOARD_MINUS; EvDelayMs 20; EvKbRelease HID_KEYBOARD_MINUS;
          EvDelayMs 10;
          EvKbPress HID_KEYBOARD_LEFT_SHIFT; EvKbPress HID_KEYBOARD_APOSTROPHE; EvDelayMs 20;
          EvKbRelease HID_KEYBOARD_APOSTROPHE; EvKbRelease HID_KEYBOARD_LEFT_SHIFT;
          EvDelayMs 10;
          EvKbPress HID_KEYBOARD_RETURN; EvDelayMs 20; EvKbRelease HID_KEYBOARD_RETURN;
          EvDelayMs 10; EvDelayMs 100 ])
  /\ (forall c h, mapped c = false -> send_char c h = h).
Proof.
  split.
  - intros h. rewrite (type_command_emitted scenario h). simpl hal_trace.
    f_equal.
  - exact send_char_unmapped.
Qed.

Lemma encoding_scenario_witness :
  send_char "!" fresh_hal = fresh_hal.
Proof.
  apply (proj2 encoding_scenario). reflexivity.
Defined.

(** *** Connection polling *)

Lemma usb_wait_run : forall k fuel timeout h,
    0 <= timeout ->
    timeout + Z.of_nat k <= 500 ->
    (k <= fuel)%nat ->
    (forall j, (j < k)%nat -> host_connected h (usb_polls h + j) = false) ->
    host_connected h (usb_polls h + k) = true \/ timeout + Z.of_nat k = 500 ->
    usb_wait fuel timeout h = (timeout + Z.of_nat k, polled k h).
Proof.
  induction k as [|k IH]; intros fuel timeout h Ht Hk Hfuel Hquiet Hend.
  - assert (Hstop : negb (host_connected h (usb_polls h)) && (timeout <? 500) = false).
    { rewrite Nat.add_0_r in Hend. destruct Hend as [-> | Hend]; [reflexivity|].
      replace (timeout <? 500) with false by (symmetry; apply Z.ltb_ge; lia).
      apply andb_false_r. }
    unfold polled. rewrite Nat.add_0_r, Z.add_0_r.
    destruct fuel; simpl; rewrite Hstop; reflexivity.
  - destruct fuel as [|fuel]; [lia|].
    assert (Hgo : negb (host_connected h (usb_polls h)) && (timeout <? 500) = true).
    { rewrite <- (Nat.add_0_r (usb_polls h)) at 1. rewrite Hquiet by lia.
      simpl. apply Z.ltb_lt. lia. }
    simpl. rewrite Hgo.
    rewrite wrap32_small by lia.
    rewrite IH; try lia.
    + f_equal; [lia|].
      unfold polled, polling. simpl.
      assert (H0 : host_connected h (usb_polls h) = false).
      { rewrite <- (Nat.add_0_r (usb_polls h)). apply Hquiet. lia. }
      rewrite H0.
      rewrite <- !app_assoc. simpl.
      replace (usb_polls h + S k)%nat with (S (usb_polls h + k)) by lia.
      reflexivity.
    + simpl. intros j Hj.
      replace (S (usb_polls h + j)) with (usb_polls h + S j)%nat by lia.
      apply Hquiet. lia.
    + simpl.
      replace (S (usb_polls h + k)) with (usb_polls h + S k)%nat by lia.
      destruct Hend as [Hend|Hend]; [left; exact Hend | right; lia].
Qed.

(** The loop never runs out of fuel: from [timeout], any two amounts of at
    least [500 - timeout] give the same result. *)
Lemma usb_wait_fuel : forall n fuel timeout h,
    500 - timeout <= Z.of_nat n ->
    (n <= fuel)%nat ->
    0 <= timeout ->
    usb_wait fuel timeout h = usb_wait n timeout h.
Proof.
  induction n as [|n IH]; intros fuel timeout h Hn Hfuel Ht.
  - assert (Hstop : (timeout <? 500) = false) by (apply Z.ltb_ge; lia).
    destruct fuel; simpl; rewrite Hstop, andb_false_r; reflexivity.
  - destruct fuel as [|fuel]; [lia|].
    simpl.
    destruct (negb (host_connected h (usb_polls h)) && (timeout <? 500)) eqn:Hgo;
      [|reflexivity].
    apply andb_prop in Hgo. destruct Hgo as [_ Hlt]. apply Z.ltb_lt in Hlt.
    rewrite wrap32_small by lia.
    apply IH; lia.
Qed.

Lemma polling_quiet : forall k, key_events (polling k) = [].
Proof. induction k as [|k IH]; [reflexivity | exact IH]. Qed.

Lemma polling_elapsed : forall k, elapsed_ms (polling k) = 10 * Z.of_nat k.
Proof.
  induction k as [|k IH]; [reflexivity|].
  change (polling (S k)) with (EvUsbIsConnected false :: EvDelayMs 10 :: polling k).
  cbn [elapsed_ms fold_right delay_of]. fold (elapsed_ms (polling k)). lia.
Qed.

(** [send_command] when the host is silent from the call on. *)
Lemma send_command_silent : forall command h,
    (forall k, host_connected h (usb_polls h + k) = false) ->
    send_command command h =
    {| usb_config := usb_hid;
       usb_polls := S (S (usb_polls h + 500));
       host_connected := host_connected h;
       hal_trace := hal_trace h ++ timeout_events |}.
Proof.
  intros command h Hsilent. unfold send_command.
  set (h1 := furi_hal_usb_set_config usb_hid h).
  assert (Hrun : usb_wait 500 0 h1 = (0 + Z.of_nat 500, polled 500 h1)).
  { apply usb_wait_run; [lia | lia | lia | | right; reflexivity].
    intros j _. apply Hsilent. }
  rewrite Hrun. clear Hrun.
  unfold furi_hal_usb_is_connected, polled, h1, furi_hal_usb_set_config, emit.
  cbn [usb_config usb_polls host_connected hal_trace].
  replace (S (usb_polls h + 500)) with (usb_polls h + 501)%nat by lia.
  rewrite !Hsilent. cbn [negb].
  unfold timeout_events.
  f_equal; try lia.
  rewrite <- !app_assoc. reflexivity.
Qed.

(** [send_command] when the host answers the poll number [k], and the one
    after it, for the first time. *)
Lemma send_command_connected : forall command h k,
    (k <= 500)%nat ->
    (forall j, (j < k)%nat -> host_connected h (usb_polls h + j) = false) ->
    host_connected h (usb_polls h + k) = true ->
    host_connected h (usb_polls h + k + 1) = true ->
    send_command command h =
    furi_hal_usb_set_config usb_hid
      (type_command command
         (furi_delay_ms 500
            {| usb_config := usb_hid;
               usb_polls := S (S (usb_polls h + k));
               host_connected := host_connected h;
               hal_trace :=
                 hal_trace h ++ [EvUsbSetConfig usb_hid] ++ polling k
                   ++ [EvUsbIsConnected true; EvUsbIsConnected true] |})).
Proof.
  intros command h k Hk Hquiet Hon Hnext. unfold send_command.
  set (h1 := furi_hal_usb_set_config usb_hid h).
  assert (Hrun : usb_wait 500 0 h1 = (0 + Z.of_nat k, polled k h1)).
  { apply usb_wait_run; [lia | lia | lia | exact Hquiet | left; exact Hon]. }
  rewrite Hrun. clear Hrun.
  match goal with
  | |- _ = furi_hal_usb_set_config _ (type_command _ (furi_delay_ms _ ?r)) =>
      assert (Hpoll : furi_hal_usb_is_connected (polled k h1) = (true, r))
  end.
  { unfold furi_hal_usb_is_connected, polled, h1, furi_hal_usb_set_config, emit.
    cbn [usb_config usb_polls host_connected hal_trace].
    replace (S (usb_polls h + k)) with (usb_polls h + k + 1)%nat by lia.
    rewrite Hon, Hnext.
    do 2 f_equal; try lia.
    rewrite <- !app_assoc. reflexivity. }
  rewrite Hpoll. reflexivity.
Qed.

(** C3.  When the host never answers, [send_command] selects the HID
    configuration, polls 500 times with 10 ms after each poll (5000 ms in
    all), polls once more at the loop test and once at the check behind the
    loop, and returns: no key event, and the HID configuration still
    selected.  When the host answers within the window (poll [k <= 500] and
    the poll after it), the polls are followed by the 500 ms delay, and only
    then by what typing the string emits. *)
Theorem send_command_timeout_and_settle : forall command h,
    ((forall k, host_connected h (usb_polls h + k) = false) ->
     hal_trace (send_command command h)
     = hal_trace h ++ [EvUsbSetConfig usb_hid] ++ polling 500
         ++ [EvUsbIsConnected false; EvUsbIsConnected false]
     /\ key_events ([EvUsbSetConfig usb_hid] ++ polling 500
                      ++ [EvUsbIsConnected false; EvUsbIsConnected false]) = []
     /\ elapsed_ms ([EvUsbSetConfig usb_hid] ++ polling 500
                      ++ [EvUsbIsConnected false; EvUsbIsConnected false]) = 5000
     /\ usb_config (send_command command h) = usb_hid)
    /\ (forall k,
           (k <= 500)%nat ->
           (forall j, (j < k)%nat -> host_connected h (usb_polls h + j) = false) ->
           host_connected h (usb_polls h + k) = true ->
           host_connected h (usb_polls h + k + 1) = true ->
           hal_trace (send_command command h)
           = hal_trace h ++ [EvUsbSetConfig usb_hid] ++ polling k
               ++ [EvUsbIsConnected true; EvUsbIsConnected true]
               ++ [EvDelayMs 500]
               ++ emitted (type_command command)
               ++ [EvUsbSetConfig usb_hid]).
Proof.
  intros command h. split.
  - intros Hsilent. rewrite (send_command_silent command h Hsilent).
    split; [reflexivity | split; [ | split; [ | reflexivity]]].
    + change (key_events (EvUsbSetConfig usb_hid ::
                polling 500 ++ [EvUsbIsConnected false; EvUsbIsConnected false]) = []).
      unfold key_events. cbn [filter is_key_event]. rewrite filter_app.
      fold (key_events (polling 500)). rewrite polling_quiet. reflexivity.
    + vm_compute. reflexivity.
  - intros k Hk Hquiet Hon Hnext.
    rewrite (send_command_connected command h k Hk Hquiet Hon Hnext).
    unfold furi_hal_usb_set_config. cbn [emit hal_trace usb_config usb_polls host_connected].
    rewrite type_command_emitted. cbn [hal_trace].
    unfold furi_delay_ms. cbn [emit hal_trace].
    rewrite <- !app_assoc. reflexivity.
Qed.

Lemma send_command_timeout_and_settle_witness :
  usb_config (send_command "ls" fresh_hal) = usb_hid
  /\ hal_trace (send_command "ls" late_host)
     = hal_trace late_host ++ [EvUsbSetConfig usb_hid] ++ polling 2
         ++ [EvUsbIsConnected true; EvUsbIsConnected true]
         ++ [EvDelayMs 500]
         ++ emitted (type_command "ls")
         ++ [EvUsbSetConfig usb_hid].
Proof.
  split.
  - apply (proj1 (send_command_timeout_and_settle "ls" fresh_hal)).
    intros k. reflexivity.
  - apply (proj2 (send_command_timeout_and_settle "ls" late_host) 2%nat).
    + repeat constructor.
    + intros j Hj. destruct j as [|[|j]]; [reflexivity | reflexivity | ].
      exfalso. apply (Nat.nlt_0_r j). exact (proj2 (Nat.succ_lt_mono _ _) (proj2 (Nat.succ_lt_mono _ _) Hj)).
    + reflexivity.
    + reflexivity.
Defined.

(** *** The USB configuration after a send *)

Lemma usb_wait_config : forall fuel timeout h,
    usb_config (snd (usb_wait fuel timeout h)) = usb_config h.
Proof.
  induction fuel as [|fuel IH]; intros timeout h; simpl.
  - destruct (negb (host_connected h (usb_polls h)) && (timeout <? 500)); reflexivity.
  - destruct (negb (host_connected h (usb_polls h)) && (timeout <? 500)); [|reflexivity].
    rewrite IH. reflexivity.
Qed.

Lemma send_command_config : forall command h,
    usb_config (send_command command h) = usb_hid.
Proof.
  intros command h. unfold send_command.
  pose proof (usb_wait_config 500 0 (furi_hal_usb_set_config usb_hid h)) as Hw.
  destruct (usb_wait 500 0 (furi_hal_usb_set_config usb_hid h)) as [t h1].
  simpl in Hw. unfold furi_hal_usb_is_connected.
  destruct (host_connected h1 (usb_polls h1)); simpl.
  - reflexivity.
  - exact Hw.
Qed.

(** C1.  [send_command] does not put back the USB configuration that was in
    use before the call: after it the selected configuration is [usb_hid],
    whatever it was before.  With the serial configuration selected and the
    host connected, sending the one letter a ends with a second selection of
    [usb_hid]; with a host that never answers, the only configuration call
    is the selection of [usb_hid] at the start.  In both runs the
    configuration after the call differs from the one before it. *)
Theorem send_command_leaves_hid_selected :
  (forall command h, usb_config (send_command command h) = usb_hid)
  /\ hal_trace (send_command "a" plugged_host)
     = [ EvUsbSetConfig usb_hid; EvUsbIsConnected true; EvUsbIsConnected true;
         EvDelayMs 500;
         EvKbPress HID_KEYBOARD_A; EvDelayMs 20; EvKbRelease HID_KEYBOARD_A; EvDelayMs 10;
         EvUsbSetConfig usb_hid ]
  /\ usb_config (send_command "a" plugged_host) <> usb_config plugged_host
  /\ last_set_config (hal_trace (send_command "a" fresh_hal)) = Some usb_hid
  /\ List.length (filter (fun e => match e with EvUsbSetConfig _ => true | _ => false end)
                    (hal_trace (send_command "a" fresh_hal))) = 1%nat
  /\ usb_config (send_command "a" fresh_hal) <> usb_config fresh_hal.
Proof.
  split; [exact send_command_config|].
  split; [vm_compute; reflexivity|].
  split; [vm_compute; discriminate|].
  split; [vm_compute; reflexivity|].
  split; [vm_compute; reflexivity|].
  vm_compute; discriminate.
Qed.

(** ** The submenu viewport *)

Lemma count_loop_range : forall rest cat count,
    0 <= count < 256 -> 0 <= count_loop rest cat count < 256.
Proof.
  induction rest as [|e rest IH]; intros cat count Hc; simpl.
  - exact Hc.
  - destruct (name e); [|exact Hc].
    apply IH. destruct (MenuCategory_eqb (category e) cat); [|exact Hc].
    unfold wrap8. apply Z.mod_pos_bound. lia.
Qed.

Lemma count_menu_items_range : forall table cat,
    0 <= count_menu_items table cat < 256.
Proof. intros table cat. apply count_loop_range. lia. Qed.

Lemma matches_le_length : forall cat table,
    matches cat table <= Z.of_nat (List.length table).
Proof.
  intros cat table. induction table as [|e table IH].
  - unfold matches. simpl. lia.
  - rewrite matches_cons. simpl List.length.
    pose proof (matches_nonneg cat table).
    destruct (name e); [|lia].
    destruct (in_category cat e); lia.
Qed.

(** With enough fuel the loop draws the rows from [i] to the end of the
    viewport or of the category, whichever comes first. *)
Lemma row_loop_rows : forall table app item_count start fuel i y cv,
    0 <= item_count < 256 ->
    0 <= start <= i ->
    visible_count - (i - start) <= Z.of_nat fuel ->
    row_loop table fuel app item_count start i y cv =
    fst (draw_rows table app
           (map Z.of_nat
                (seq (Z.to_nat i)
                     (Z.to_nat (Z.min (visible_count - (i - start)) (item_count - i)))))
           y cv).
Proof.
  intros table app item_count start.
  induction fuel as [|fuel IH]; intros i y cv Hcount Hi Hfuel.
  - cbn [row_loop]. unfold visible_count in *.
    replace (i - start <? 4) with false by (symmetry; apply Z.ltb_ge; lia).
    rewrite andb_false_r.
    replace (Z.to_nat (Z.min (4 - (i - start)) (item_count - i))) with 0%nat by lia.
    reflexivity.
  - cbn [row_loop]. unfold visible_count in Hfuel |- *.
    destruct ((i <? item_count) && (i - start <? 4)) eqn:Htest.
    + apply andb_prop in Htest. destruct Htest as [H1 H2].
      apply Z.ltb_lt in H1. apply Z.ltb_lt in H2.
      replace (Z.to_nat (Z.min (4 - (i - start)) (item_count - i)))
        with (S (Z.to_nat (Z.min (4 - (i + 1 - start)) (item_count - (i + 1))))) by lia.
      simpl seq. simpl map. unfold draw_rows. simpl fold_left.
      rewrite Z2Nat.id by lia.
      destruct (draw_row table app i y cv) as [cv' y'] eqn:Hrow.
      rewrite wrap8_small by lia.
      rewrite IH by (unfold visible_count; lia).
      unfold draw_rows, visible_count.
      replace (S (Z.to_nat i)) with (Z.to_nat (i + 1)) by lia.
      reflexivity.
    + apply andb_false_iff in Htest.
      replace (Z.to_nat (Z.min (4 - (i - start)) (item_count - i))) with 0%nat.
      * reflexivity.
      * destruct Htest as [H|H]; apply Z.ltb_ge in H; lia.
Qed.

(** C7.  The viewport of a submenu starts at 0 while the selection is below
    4 and at selection - 3 from 4 on; the rows drawn are the indices from
    the start on, at most four and none from the item count on, so that a
    selection of 4 or more is the last row drawn; and with ten items and
    selection 7 the frame is the header, the names of items 4, 5, 6 and 7 on
    rows y = 20, 30, 40, 50, the marker on the row of item 7, and the
    footer. *)
Theorem submenu_viewport : forall table app cv,
    (List.length table < 256)%nat ->
    0 <= selected_item app < 256 ->
    let item_count := count_menu_items table (current_category app) in
    visible_start app
    = (if selected_item app <? 4 then 0 else selected_item app - 3)
    /\ render_submenu table app cv
       = fst (draw_rows table app (visible_rows item_count (visible_start app)) 20
                (cv ++ [CanvasClear; CanvasSetFont FontPrimary;
                        CanvasDrawStr 2 10 (headers (current_category app))]))
           ++ [CanvasSetFont FontSecondary;
               CanvasDrawStrAligned 64 62 AlignCenter AlignBottom
                 (Some "OK=Send  Back=Menu"%string)]
    /\ (4 <= selected_item app < item_count ->
        visible_rows item_count (visible_start app)
        = [selected_item app - 3; selected_item app - 2;
           selected_item app - 1; selected_item app])
    /\ (item_count = 10 -> selected_item app = 7 ->
        visible_start app = 4
        /\ visible_rows item_count (visible_start app) = [4; 5; 6; 7]
        /\ exists p4 p5 p6 p7,
            get_menu_item table (current_category app) 4 = Some p4
            /\ get_menu_item table (current_category app) 5 = Some p5
            /\ get_menu_item table (current_category app) 6 = Some p6
            /\ get_menu_item table (current_category app) 7 = Some p7
            /\ render_submenu table app cv
               = cv ++ [ CanvasClear; CanvasSetFont FontPrimary;
                         CanvasDrawStr 2 10 (headers (current_category app));
                         CanvasDrawStr 12 20 (name_at table p4);
                         CanvasDrawStr 12 30 (name_at table p5);
                         CanvasDrawStr 12 40 (name_at table p6);
                         CanvasDrawStr 4 50 (Some ">"%string);
                         CanvasDrawStr 12 50 (name_at table p7);
                         CanvasSetFont FontSecondary;
                         CanvasDrawStrAligned 64 62 AlignCenter AlignBottom
                           (Some "OK=Send  Back=Menu"%string) ]).
Proof.
  intros table app cv Hlen Hsel item_count.
  assert (Hstart : visible_start app
                   = (if selected_item app <? 4 then 0 else selected_item app - 3)).
  { unfold visible_start, visible_count.
    destruct (Z.ltb_spec (selected_item app) 4) as [Hlt|Hge].
    - replace (selected_item app >=? 4) with false; [reflexivity|].
      symmetry. rewrite Z.geb_leb. apply Z.leb_gt. lia.
    - replace (selected_item app >=? 4) with true.
      + rewrite wrap8_small by lia. lia.
      + symmetry. rewrite Z.geb_leb. apply Z.leb_le. lia. }
  assert (Hstart0 : 0 <= visible_start app).
  { rewrite Hstart. destruct (selected_item app <? 4) eqn:E; [lia|].
    apply Z.ltb_ge in E. lia. }
  assert (Hrender : render_submenu table app cv
       = fst (draw_rows table app (visible_rows item_count (visible_start app)) 20
                (cv ++ [CanvasClear; CanvasSetFont FontPrimary;
                        CanvasDrawStr 2 10 (headers (current_category app))]))
           ++ [CanvasSetFont FontSecondary;
               CanvasDrawStrAligned 64 62 AlignCenter AlignBottom
                 (Some "OK=Send  Back=Menu"%string)]).
  { unfold render_submenu. fold item_count.
    rewrite row_loop_rows.
    - unfold visible_rows. rewrite Z.sub_diag, Z.sub_0_r.
      rewrite <- !app_assoc. reflexivity.
    - apply count_menu_items_range.
    - lia.
    - unfold visible_count. lia. }
  split; [exact Hstart|]. split; [exact Hrender|]. split.
  - intros Hin. rewrite Hstart.
    replace (selected_item app <? 4) with false by (symmetry; apply Z.ltb_ge; lia).
    unfold visible_rows, visible_count.
    replace (Z.to_nat (Z.min 4 (item_count - (selected_item app - 3)))) with 4%nat by lia.
    cbn [seq map].
    repeat f_equal; lia.
  - intros Hten Hseven.
    assert (Hs4 : visible_start app = 4).
    { rewrite Hstart, Hseven. reflexivity. }
    assert (Hrows : visible_rows item_count (visible_start app) = [4; 5; 6; 7]).
    { rewrite Hs4, Hten. reflexivity. }
    split; [exact Hs4|]. split; [exact Hrows|].
    assert (Hb : matches (current_category app) table < 256).
    { pose proof (matches_le_length (current_category app) table). lia. }
    assert (Hget : forall i, 0 <= i < 10 ->
               exists p, get_menu_item table (current_category app) i = Some p).
    { intros i Hi.
      rewrite get_menu_item_found by (fold item_count; lia).
      destruct (nth_error (category_positions table (current_category app)) (Z.to_nat i))
        as [p|] eqn:E; [exists p; reflexivity|].
      apply nth_error_None in E.
      assert (Z.of_nat (List.length (category_positions table (current_category app)))
              = matches (current_category app) table).
      { unfold category_positions. apply positions_from_length. }
      pose proof (count_menu_items_spec table (current_category app) Hb) as Hc.
      fold item_count in Hc. lia. }
    destruct (Hget 4) as [p4 H4]; [lia|].
    destruct (Hget 5) as [p5 H5]; [lia|].
    destruct (Hget 6) as [p6 H6]; [lia|].
    destruct (Hget 7) as [p7 H7]; [lia|].
    exists p4, p5, p6, p7.
    repeat (split; [assumption|]).
    rewrite Hrender, Hrows.
    unfold draw_rows. cbn [fold_left fst snd].
    unfold draw_row. rewrite H4, H5, H6, H7, Hseven.
    cbn. rewrite <- !app_assoc. reflexivity.
Qed.

Lemma submenu_viewport_witness :
  visible_rows (count_menu_items ten_items MenuCategoryContent)
               (visible_start (browsing AppStateContentMenu MenuCategoryContent 7))
  = [4; 5; 6; 7]
  /\ render_submenu ten_items (browsing AppStateContentMenu MenuCategoryContent 7) []
     = [ CanvasClear; CanvasSetFont FontPrimary;
         CanvasDrawStr 2 10 (Some "CONTENT GEN"%string);
         CanvasDrawStr 12 20 (Some "four"%string);
         CanvasDrawStr 12 30 (Some "five"%string);
         CanvasDrawStr 12 40 (Some "six"%string);
         CanvasDrawStr 4 50 (Some ">"%string);
         CanvasDrawStr 12 50 (Some "seven"%string);
         CanvasSetFont FontSecondary;
         CanvasDrawStrAligned 64 62 AlignCenter AlignBottom
           (Some "OK=Send  Back=Menu"%string) ].
Proof.
  assert (Hlen : (List.length ten_items < 256)%nat) by (vm_compute; repeat constructor).
  assert (Hsel : 0 <= selected_item (browsing AppStateContentMenu MenuCategoryContent 7) < 256)
    by (split; [discriminate | reflexivity]).
  destruct (submenu_viewport ten_items
              (browsing AppStateContentMenu MenuCategoryContent 7) [] Hlen Hsel)
    as (_ & _ & Hlast & Hscene).
  split.
  - apply Hlast. split; [discriminate | reflexivity].
  - destruct (Hscene eq_refl eq_refl) as (_ & _ & p4 & p5 & p6 & p7 & H4 & H5 & H6 & H7 & Hframe).
    rewrite Hframe.
    injection H4 as <-. injection H5 as <-. injection H6 as <-. injection H7 as <-.
    reflexivity.
Defined.

(** ** The menu state machine *)

Ltac counts :=
  destruct commands_counts as (Hcount_main & Hcount_tarot & Hcount_content & Hcount_nsfw).

Ltac fields :=
  cbn [state selected_item menu_start current_category current_command custom_command
       splash_timer running set_state set_selected_item set_current_category
       set_current_command set_splash_timer set_running enter_submenu begin_send
       finish_send fst snd] in *.

(** Case analysis on the screen, with the invariant read at that screen. *)
Ltac by_screen app Hinv Hs :=
  unfold app_inv in Hinv;
  destruct (state app) eqn:Hs;
  try (unfold app_inv; cbn [fst]; rewrite Hs; exact Hinv).

Ltac at_screen Hs :=
  unfold app_inv; fields; rewrite ?Hs; unfold browsing_inv; fields;
  rewrite ?(proj1 (proj2 commands_counts)),
          ?(proj1 (proj2 (proj2 commands_counts))),
          ?(proj2 (proj2 (proj2 commands_counts))).

Lemma app_inv_up : forall app, app_inv commands app -> app_inv commands (on_up app).
Proof.
  intros app Hinv. counts. unfold on_up.
  by_screen app Hinv Hs;
    unfold browsing_inv in *;
    rewrite ?Hcount_tarot, ?Hcount_content, ?Hcount_nsfw in *;
    (destruct (Z.gtb_spec (selected_item app) 0) as [Hpos|Hzero];
     at_screen Hs; [|exact Hinv]);
    destruct Hinv as [H1 H2];
    rewrite wrap8_small by lia; repeat split; try assumption; lia.
Qed.

Lemma app_inv_down : forall app, app_inv commands app -> app_inv commands (on_down commands app).
Proof.
  intros app Hinv. counts. unfold on_down.
  by_screen app Hinv Hs.
  - destruct (Z.ltb_spec (selected_item app) 3); at_screen Hs; [|exact Hinv].
    rewrite wrap8_small by lia. lia.
  - destruct Hinv as [Hc Hsel]. rewrite Hc, Hcount_tarot in *.
    destruct (Z.ltb_spec (selected_item app) (5 - 1)); at_screen Hs; [|auto].
    rewrite wrap8_small by lia. split; [assumption | lia].
  - destruct Hinv as [Hc Hsel]. rewrite Hc, Hcount_content in *.
    destruct (Z.ltb_spec (selected_item app) (4 - 1)); at_screen Hs; [|auto].
    rewrite wrap8_small by lia. split; [assumption | lia].
  - destruct Hinv as [Hc Hsel]. rewrite Hc, Hcount_nsfw in *.
    destruct (Z.ltb_spec (selected_item app) (3 - 1)); at_screen Hs; [|auto].
    rewrite wrap8_small by lia. split; [assumption | lia].
Qed.

Lemma staged_from_menu : forall app c p,
    browsing_inv commands c app ->
    c <> MenuCategoryMain ->
    get_menu_item commands (current_category app) (selected_item app) = Some p ->
    staged commands (set_state AppStateConfirm (set_current_command (Some p) app)).
Proof.
  intros app c p [Hc Hsel] Hne Hget. unfold staged. fields.
  rewrite Hc in *. split; [exact Hne|]. split; [exact Hsel|].
  exists p. auto.
Qed.

Lemma app_inv_ok : forall app h,
    app_inv commands app -> app_inv commands (fst (on_ok commands app h)).
Proof.
  intros app h Hinv. counts. unfold on_ok.
  by_screen app Hinv Hs.
  - at_screen Hs. lia.
  - destruct (selected_item app =? 0); [at_screen Hs; split; [reflexivity | lia]|].
    destruct (selected_item app =? 1); [at_screen Hs; split; [reflexivity | lia]|].
    destruct (selected_item app =? 2); [at_screen Hs; split; [reflexivity | lia]|].
    at_screen Hs. exact Hinv.
  - destruct (get_menu_item commands (current_category app) (selected_item app)) eqn:Hget;
      at_screen Hs; [|exact Hinv].
    eapply staged_from_menu; eauto. discriminate.
  - destruct (get_menu_item commands (current_category app) (selected_item app)) eqn:Hget;
      at_screen Hs; [|exact Hinv].
    eapply staged_from_menu; eauto. discriminate.
  - destruct (get_menu_item commands (current_category app) (selected_item app)) eqn:Hget;
      at_screen Hs; [|exact Hinv].
    eapply staged_from_menu; eauto. discriminate.
  - destruct (current_command app); at_screen Hs; [lia | exact Hinv].
Qed.

Lemma app_inv_back : forall app, app_inv commands app -> app_inv commands (on_back app).
Proof.
  intros app Hinv. counts. unfold on_back.
  by_screen app Hinv Hs; try (at_screen Hs; first [exact I | exact Hinv | lia]).
  destruct Hinv as (Hne & Hsel & Hp). fields.
  destruct (current_category app) eqn:Hc; at_screen Hs;
    rewrite ?Hc; try congruence;
    rewrite ?Hcount_tarot, ?Hcount_content, ?Hcount_nsfw in Hsel; auto.
Qed.

Lemma app_inv_input : forall ev app h,
    app_inv commands app -> app_inv commands (fst (input_callback commands ev app h)).
Proof.
  intros [[] []] app h Hinv; unfold input_callback; cbn [type key fst]; try exact Hinv.
  - apply app_inv_up. exact Hinv.
  - apply app_inv_down. exact Hinv.
  - apply app_inv_ok. exact Hinv.
  - apply app_inv_back. exact Hinv.
Qed.

Lemma app_inv_tick : forall app, app_inv commands app -> app_inv commands (main_loop_tick app).
Proof.
  intros app Hinv. unfold main_loop_tick.
  by_screen app Hinv Hs.
  fields.
  destruct (wrap32 (splash_timer app + 1) >=? 300); at_screen Hs; [lia | exact I].
Qed.

Lemma reachable_inv : forall app, reachable commands app -> app_inv commands app.
Proof.
  intros app Hreach. induction Hreach as [m Hm | app _ IH | app ev h _ IH | app p _ IH Hs Hp].
  - exact I.
  - apply app_inv_tick. exact IH.
  - apply app_inv_input. exact IH.
  - unfold app_inv in *. rewrite Hs in IH. exact IH.
Qed.

Lemma app_inv_selection : forall app,
    app_inv commands app -> selection_in_bounds commands app.
Proof.
  intros app Hinv.
  unfold selection_in_bounds, item_count, app_inv, browsing_inv, staged in *.
  destruct (state app); try exact I.
  - lia.
  - destruct Hinv as [-> H]. exact H.
  - destruct Hinv as [-> H]. exact H.
  - destruct Hinv as [-> H]. exact H.
  - destruct Hinv as (_ & H & _). exact H.
  - destruct Hinv as (_ & H & _). exact H.
Qed.

(** C5.  In every state the program can be in, and after the input handler
    has run on it for any event, the selection lies between 0 and the item
    count of the screen minus one (four rows on the main menu, the entries
    of the current category on a submenu and on the screens behind it).  Up
    at index 0 and Down at the last index leave the record as it is, on the
    main menu and on every submenu. *)
Theorem selection_stays_in_bounds :
  (forall app ev h,
      reachable commands app ->
      selection_in_bounds commands app
      /\ selection_in_bounds commands (fst (input_callback commands ev app h)))
  /\ (forall app h,
         state app = AppStateMainMenu \/ is_submenu (state app) = true ->
         selected_item app = 0 ->
         fst (input_callback commands (press InputKeyUp) app h) = app)
  /\ (forall app h n,
         item_count commands app = Some n ->
         selected_item app = n - 1 ->
         fst (input_callback commands (press InputKeyDown) app h) = app).
Proof.
  split; [|split].
  - intros app ev h Hreach. apply reachable_inv in Hreach.
    split; apply app_inv_selection; [exact Hreach | apply app_inv_input; exact Hreach].
  - intros app h Hs Hzero. unfold input_callback. cbn [press type key fst].
    unfold on_up. rewrite Hzero.
    destruct (state app); reflexivity.
  - intros app h n Hn Hlast. unfold input_callback. cbn [press type key fst].
    unfold on_down, item_count in *.
    destruct (state app); try reflexivity; inversion Hn; subst n; rewrite Hlast;
      try rewrite Z.ltb_irrefl; reflexivity.
Qed.

Lemma selection_stays_in_bounds_witness :
  selection_in_bounds commands
    (fst (input_callback commands (press InputKeyOk) (app_init 0) fresh_hal))
  /\ fst (input_callback commands (press InputKeyUp)
            (browsing AppStateMainMenu MenuCategoryMain 0) fresh_hal)
     = browsing AppStateMainMenu MenuCategoryMain 0
  /\ fst (input_callback commands (press InputKeyDown)
            (browsing AppStateNSFWMenu MenuCategoryNSFW 2) fresh_hal)
     = browsing AppStateNSFWMenu MenuCategoryNSFW 2.
Proof.
  destruct selection_stays_in_bounds as (Hin & Hup & Hdown).
  split; [|split].
  - apply (Hin (app_init 0) (press InputKeyOk) fresh_hal).
    apply reach_init. split; [discriminate | reflexivity].
  - apply Hup; [left; reflexivity | reflexivity].
  - apply (Hdown _ fresh_hal 3); reflexivity.
Defined.

(** C6.  On the main menu, OK with selection 0, 1 or 2 gives the Tarot,
    Content or NSFW submenu with that category and selection 0, everything
    else in the record and the HAL as before; OK with selection 3 changes
    nothing at all. *)
Theorem main_menu_confirm : forall table app h,
    state app = AppStateMainMenu ->
    let entered s c :=
      ({| state := s; selected_item := 0; menu_start := menu_start app;
          current_category := c; current_command := current_command app;
          custom_command := custom_command app; splash_timer := splash_timer app;
          running := running app |}, h) in
    (selected_item app = 0 ->
     input_callback table (press InputKeyOk) app h
     = entered AppStateTarotMenu MenuCategoryTarot)
    /\ (selected_item app = 1 ->
        input_callback table (press InputKeyOk) app h
        = entered AppStateContentMenu MenuCategoryContent)
    /\ (selected_item app = 2 ->
        input_callback table (press InputKeyOk) app h
        = entered AppStateNSFWMenu MenuCategoryNSFW)
    /\ (selected_item app = 3 ->
        input_callback table (press InputKeyOk) app h = (app, h)).
Proof.
  intros table app h Hs entered. subst entered.
  unfold input_callback, on_ok. cbn [press type key]. rewrite Hs.
  repeat split; intros Hsel; rewrite Hsel; reflexivity.
Qed.

Lemma main_menu_confirm_witness :
  input_callback commands (press InputKeyOk)
    (browsing AppStateMainMenu MenuCategoryMain 1) fresh_hal
  = (browsing AppStateContentMenu MenuCategoryContent 0, fresh_hal)
  /\ input_callback commands (press InputKeyOk)
       (browsing AppStateMainMenu MenuCategoryMain 3) fresh_hal
     = (browsing AppStateMainMenu MenuCategoryMain 3, fresh_hal).
Proof.
  split.
  - apply (proj1 (proj2 (main_menu_confirm commands
                           (browsing AppStateMainMenu MenuCategoryMain 1) fresh_hal
                           eq_refl))).
    reflexivity.
  - apply (proj2 (proj2 (proj2 (main_menu_confirm commands
                                  (browsing AppStateMainMenu MenuCategoryMain 3) fresh_hal
                                  eq_refl)))).
    reflexivity.
Defined.

Lemma run_app : forall table evs ev s,
    run table (evs ++ [ev]) s
    = input_callback table ev (fst (run table evs s)) (snd (run table evs s)).
Proof. intros table evs ev s. unfold run. rewrite fold_left_app. reflexivity. Qed.

Lemma moves_keep_screen : forall table evs s,
    forallb is_move evs = true ->
    state (fst (run table evs s)) = state (fst s).
Proof.
  intros table evs. induction evs as [|ev evs IH] using rev_ind; intros s Hmoves.
  - reflexivity.
  - rewrite forallb_app in Hmoves. apply andb_prop in Hmoves.
    destruct Hmoves as [Hevs Hev]. simpl in Hev. rewrite andb_true_r in Hev.
    rewrite run_app. rewrite <- (IH s Hevs).
    generalize (fst (run table evs s)) as app, (snd (run table evs s)) as h.
    intros app h. unfold input_callback, is_move in *.
    destruct ev as [[] []]; cbn [type key fst] in *; try reflexivity; try discriminate.
    + unfold on_up. destruct (state app) eqn:Hs; try exact Hs;
        destruct (selected_item app >? 0); cbn [state set_selected_item]; exact Hs.
    + unfold on_down. destruct (state app) eqn:Hs; try exact Hs;
        match goal with |- context [if ?b then _ else _] => destruct b end;
        cbn [state set_selected_item]; exact Hs.
Qed.

(** C8.  From the main menu with selection 0, 1 or 2, OK enters a submenu
    and Back returns to the main menu with selection 0, whatever the
    selection was before; so does Back from a submenu at any selection, and
    after any moves of the cursor made in between. *)
Theorem submenu_round_trip : forall table app h,
    (state app = AppStateMainMenu ->
     0 <= selected_item app <= 2 ->
     forall moves,
       forallb is_move moves = true ->
       let entered := input_callback table (press InputKeyOk) app h in
       let left := run table (moves ++ [press InputKeyBack]) entered in
       is_submenu (state (fst entered)) = true
       /\ state (fst left) = AppStateMainMenu
       /\ selected_item (fst left) = 0)
    /\ (is_submenu (state app) = true ->
        state (fst (input_callback table (press InputKeyBack) app h)) = AppStateMainMenu
        /\ selected_item (fst (input_callback table (press InputKeyBack) app h)) = 0).
Proof.
  intros table app h.
  assert (Hback : forall app' h',
             is_submenu (state app') = true ->
             state (fst (input_callback table (press InputKeyBack) app' h')) = AppStateMainMenu
             /\ selected_item (fst (input_callback table (press InputKeyBack) app' h')) = 0).
  { intros app' h' Hsub. unfold input_callback, on_back. cbn [press type key fst].
    destruct (state app'); try discriminate; split; reflexivity. }
  split; [|apply Hback].
  intros Hs Hsel moves Hmoves entered left.
  assert (Hentered : is_submenu (state (fst entered)) = true).
  { subst entered. unfold input_callback, on_ok. cbn [press type key]. rewrite Hs.
    destruct (Z.eqb_spec (selected_item app) 0); [reflexivity|].
    destruct (Z.eqb_spec (selected_item app) 1); [reflexivity|].
    destruct (Z.eqb_spec (selected_item app) 2); [reflexivity|].
    lia. }
  split; [exact Hentered|].
  subst left. rewrite run_app.
  apply Hback. rewrite moves_keep_screen by exact Hmoves. exact Hentered.
Qed.

Lemma submenu_round_trip_witness :
  selected_item
    (fst (run commands [press InputKeyDown; press InputKeyDown; press InputKeyBack]
            (input_callback commands (press InputKeyOk)
               (browsing AppStateMainMenu MenuCategoryMain 2) fresh_hal))) = 0
  /\ selected_item
       (fst (input_callback commands (press InputKeyBack)
               (browsing AppStateTarotMenu MenuCategoryTarot 4) fresh_hal)) = 0.
Proof.
  destruct (submenu_round_trip commands (browsing AppStateMainMenu MenuCategoryMain 2)
              fresh_hal) as [Htrip _].
  destruct (submenu_round_trip commands (browsing AppStateTarotMenu MenuCategoryTarot 4)
              fresh_hal) as [_ Hback].
  split.
  - apply (Htrip eq_refl) with (moves := [press InputKeyDown; press InputKeyDown]);
      [split; discriminate | reflexivity].
  - apply (Hback eq_refl).
Defined.

Lemma reachable_run : forall table evs app h,
    reachable table app -> reachable table (fst (run table evs (app, h))).
Proof.
  intros table evs. induction evs as [|ev evs IH] using rev_ind; intros app h Hreach.
  - exact Hreach.
  - rewrite run_app. apply reach_input. apply IH. exact Hreach.
Qed.

Lemma staged_app_reachable : reachable commands staged_app.
Proof.
  unfold staged_app. apply reachable_run. apply reach_init.
  split; [discriminate | reflexivity].
Qed.

(** C9.  In every state the program can be in, on the Confirm screen and
    while a send is executing, [current_command] is not NULL: it points into
    the array in front of the sentinel, at an entry with a name. *)
Theorem staged_command_valid : forall app,
    reachable commands app ->
    state app = AppStateConfirm \/ state app = AppStateExecuting ->
    exists p e n,
      current_command app = Some p
      /\ (p < List.length (entries commands))%nat
      /\ deref commands p = Some e
      /\ name e = Some n.
Proof.
  intros app Hreach Hs. apply reachable_inv in Hreach. unfold app_inv in Hreach.
  assert (Hstaged : staged commands app).
  { destruct Hs as [Hs|Hs]; rewrite Hs in Hreach; exact Hreach. }
  destruct Hstaged as (_ & _ & p & Hp & Hget).
  destruct (get_menu_item_valid _ _ _ _ Hget) as (Hlt & e & n & He & Hn & _).
  exists p, e, n. auto.
Qed.

Lemma staged_command_valid_witness :
  (exists p e n,
      current_command staged_app = Some p
      /\ (p < List.length (entries commands))%nat
      /\ deref commands p = Some e
      /\ name e = Some n)
  /\ (exists p e n,
         current_command (begin_send staged_app) = Some p
         /\ (p < List.length (entries commands))%nat
         /\ deref commands p = Some e
         /\ name e = Some n).
Proof.
  split.
  - apply (staged_command_valid staged_app staged_app_reachable).
    left. reflexivity.
  - apply (staged_command_valid (begin_send staged_app)).
    + apply (reach_sending commands staged_app 1%nat staged_app_reachable); reflexivity.
    + right. reflexivity.
Defined.

(** C10.  Back on the Confirm screen goes to the submenu of the current
    category (Tarot, Content or NSFW) and changes nothing else: selection,
    staged command, category and HAL are as before.  In a state the program
    can be in the category is one of the three, and the entry under the
    cursor of the submenu returned to is the command that was staged. *)
Theorem confirm_back :
  (forall table app h,
      state app = AppStateConfirm ->
      let app' := fst (input_callback table (press InputKeyBack) app h) in
      (current_category app = MenuCategoryTarot -> state app' = AppStateTarotMenu)
      /\ (current_category app = MenuCategoryContent -> state app' = AppStateContentMenu)
      /\ (current_category app = MenuCategoryNSFW -> state app' = AppStateNSFWMenu)
      /\ selected_item app' = selected_item app
      /\ current_command app' = current_command app
      /\ current_category app' = current_category app
      /\ snd (input_callback table (press InputKeyBack) app h) = h)
  /\ (forall app h,
         reachable commands app ->
         state app = AppStateConfirm ->
         let app' := fst (input_callback commands (press InputKeyBack) app h) in
         current_category app <> MenuCategoryMain
         /\ get_menu_item commands (current_category app') (selected_item app')
            = current_command app').
Proof.
  split.
  - intros table app h Hs app'. subst app'.
    unfold input_callback, on_back. cbn [press type key fst snd]. rewrite Hs.
    cbn [current_category set_state].
    destruct (current_category app) eqn:Hc; repeat split; intros; fields;
      try reflexivity; congruence.
  - intros app h Hreach Hs app'. subst app'.
    apply reachable_inv in Hreach. unfold app_inv in Hreach. rewrite Hs in Hreach.
    destruct Hreach as (Hne & _ & p & Hp & Hget).
    split; [exact Hne|].
    unfold input_callback, on_back. cbn [press type key fst snd]. rewrite Hs.
    cbn [current_category set_state].
    destruct (current_category app) eqn:Hc; fields; rewrite Hc, Hp; exact Hget.
Qed.

Lemma confirm_back_witness :
  state (fst (input_callback commands (press InputKeyBack) staged_app fresh_hal))
  = AppStateTarotMenu
  /\ selected_item (fst (input_callback commands (press InputKeyBack) staged_app fresh_hal)) = 1
  /\ get_menu_item commands MenuCategoryTarot 1
     = current_command (fst (input_callback commands (press InputKeyBack) staged_app fresh_hal)).
Proof.
  destruct confirm_back as [Hframe Hcursor].
  destruct (Hframe commands staged_app fresh_hal eq_refl) as (Htarot & _ & _ & Hsel & _).
  destruct (Hcursor staged_app fresh_hal staged_app_reachable eq_refl) as [_ Hsame].
  split; [apply Htarot; reflexivity|].
  split; [exact Hsel | exact Hsame].
Defined.

(** * More of the program *)

(** ** The text emitter on whole strings *)

Lemma char_at_tail : forall c rest i, char_at (String c rest) (S i) = char_at rest i.
Proof. intros c rest i. reflexivity. Qed.

Lemma c_chars_indexed : forall s, map (char_at s) (seq 0 (strlen s)) = c_chars s.
Proof.
  induction s as [|c rest IH].
  - reflexivity.
  - cbn [strlen c_chars]. destruct (code c =? 0); [reflexivity|].
    cbn [seq map]. f_equal.
    rewrite <- seq_shift, map_map. exact IH.
Qed.

(** The loop of [type_command] is [send_char] on the characters in front
    of the first NUL, in order. *)
Lemma type_command_chars : forall command h,
    type_command command h = fold_left (fun h' c => send_char c h') (c_chars command) h.
Proof.
  intros command h. unfold type_command.
  rewrite <- c_chars_indexed.
  generalize (seq 0 (strlen command)) as idx. intros idx. revert h.
  induction idx as [|i idx IH]; intros h; [reflexivity|].
  cbn [map fold_left]. apply IH.
Qed.

Lemma fold_send_char_appends : forall cs,
    appends (fun h => fold_left (fun h' c => send_char c h') cs h)
            (flat_map (fun c => emitted (send_char c)) cs).
Proof.
  induction cs as [|c cs IH]; intros h.
  - apply appends_skip.
  - cbn [fold_left flat_map]. rewrite IH, (send_char_emitted c h).
    cbn [usb_config usb_polls host_connected hal_trace].
    rewrite app_assoc. reflexivity.
Qed.

Lemma type_command_events : forall command,
    emitted (type_command command)
    = flat_map (fun c => emitted (send_char c)) (c_chars command).
Proof.
  intros command. unfold emitted at 1.
  rewrite type_command_chars, fold_send_char_appends. reflexivity.
Qed.





(** ** One character at a time *)

(** Case analysis on the 256 characters. *)
Ltac each_char c := destruct c as [[] [] [] [] [] [] [] []].

Lemma layout_round_trip : forall c,
    mapped c = true -> layout_char (stroke_code (emitted (send_char c))) = c.
Proof.
  intros c. each_char c; vm_compute; intros H; solve [reflexivity | discriminate H].
Qed.

(** X2.  Two different characters of the mapped set never give the same
    keystroke: what [send_char] emits for one of them tells which it was. *)
Theorem keystrokes_distinct : forall c1 c2,
    mapped c1 = true ->
    mapped c2 = true ->
    emitted (send_char c1) = emitted (send_char c2) ->
    c1 = c2.
Proof.
  intros c1 c2 H1 H2 Heq.
  rewrite <- (layout_round_trip c1 H1), <- (layout_round_trip c2 H2), Heq.
  reflexivity.
Qed.

Lemma keystrokes_distinct_witness : "034"%char = "034"%char.
Proof.
  apply (keystrokes_distinct "034" "034"); reflexivity.
Defined.

Lemma send_char_releases : forall c, held_after (emitted (send_char c)) [] = [].
Proof. intros c. each_char c; vm_compute; reflexivity. Qed.

Lemma send_char_strokes : forall c,
    strokes (emitted (send_char c)) = if mapped c then 1 else 0.
Proof. intros c. each_char c; vm_compute; reflexivity. Qed.

Lemma send_char_elapsed : forall c,
    elapsed_ms (emitted (send_char c))
    = (if mapped c then 30 else 0) + (if is_newline c then 100 else 0).
Proof. intros c. each_char c; vm_compute; reflexivity. Qed.

Lemma held_after_app : forall xs ys held,
    held_after (xs ++ ys) held = held_after ys (held_after xs held).
Proof.
  induction xs as [|e xs IH]; intros ys held; [reflexivity|].
  destruct e; cbn [app held_after]; apply IH.
Qed.

Lemma held_after_quiet : forall evs held,
    key_events evs = [] -> held_after evs held = held.
Proof.
  induction evs as [|e evs IH]; intros held Hq; [reflexivity|].
  unfold key_events in *. destruct e; cbn [filter is_key_event held_after] in *;
    try discriminate; apply IH; exact Hq.
Qed.

Lemma strokes_app : forall xs ys, strokes (xs ++ ys) = strokes xs + strokes ys.
Proof.
  intros xs ys. unfold strokes. rewrite filter_app, length_app. lia.
Qed.

Lemma elapsed_ms_app : forall xs ys, elapsed_ms (xs ++ ys) = elapsed_ms xs + elapsed_ms ys.
Proof.
  induction xs as [|e xs IH]; intros ys; [reflexivity|].
  cbn [app]. unfold elapsed_ms in *. cbn [fold_right]. rewrite IH. lia.
Qed.

Lemma count_chars_cons : forall f c cs,
    count_chars f (c :: cs) = (if f c then 1 else 0) + count_chars f cs.
Proof.
  intros f c cs. unfold count_chars. cbn [filter].
  destruct (f c); cbn [List.length]; lia.
Qed.

Lemma count_chars_bounds : forall f cs,
    0 <= count_chars f cs <= Z.of_nat (List.length cs).
Proof.
  intros f cs. unfold count_chars.
  pose proof (filter_length_le f cs). lia.
Qed.

Lemma c_chars_length : forall s, List.length (c_chars s) = strlen s.
Proof.
  induction s as [|c rest IH]; [reflexivity|].
  cbn [c_chars strlen]. destruct (code c =? 0); [reflexivity|].
  cbn [List.length]. rewrite IH. reflexivity.
Qed.

(** Typing a string leaves no key held down. *)
Lemma type_command_releases : forall command,
    held_after (emitted (type_command command)) [] = [].
Proof.
  intros command. rewrite type_command_events.
  induction (c_chars command) as [|c cs IH]; [reflexivity|].
  cbn [flat_map]. rewrite held_after_app, send_char_releases. exact IH.
Qed.

(** X4.  Typing a string presses one key (shift apart) for each mapped
    character in front of the first NUL and none for the others, and takes
    30 ms for each mapped character and 100 ms more for each newline. *)
Theorem type_command_cost : forall command,
    strokes (emitted (type_command command)) = count_chars mapped (c_chars command)
    /\ elapsed_ms (emitted (type_command command))
       = 30 * count_chars mapped (c_chars command)
         + 100 * count_chars is_newline (c_chars command).
Proof.
  intros command. rewrite type_command_events.
  induction (c_chars command) as [|c cs [IHs IHt]]; [split; reflexivity|].
  cbn [flat_map]. rewrite strokes_app, elapsed_ms_app, !count_chars_cons.
  rewrite send_char_strokes, send_char_elapsed, IHs, IHt.
  split; [reflexivity|].
  destruct (mapped c), (is_newline c); lia.
Qed.

(** No character takes more than 130 ms. *)
Lemma type_command_elapsed_le : forall command,
    0 <= elapsed_ms (emitted (type_command command)) <= 130 * Z.of_nat (strlen command).
Proof.
  intros command. rewrite type_command_events, <- c_chars_length.
  induction (c_chars command) as [|c cs IH]; [cbn; lia|].
  cbn [flat_map List.length]. rewrite elapsed_ms_app, send_char_elapsed.
  destruct (mapped c), (is_newline c); lia.
Qed.

(** ** A send against any host *)

(** Whatever the host answers, the polling loop ends after some [k <= 500 -
    timeout] unanswered polls, on an answer or on the count. *)
Lemma usb_wait_any : forall fuel timeout h,
    0 <= timeout <= 500 ->
    500 - timeout <= Z.of_nat fuel ->
    exists k,
      timeout + Z.of_nat k <= 500
      /\ (forall j, (j < k)%nat -> host_connected h (usb_polls h + j) = false)
      /\ (host_connected h (usb_polls h + k) = true \/ timeout + Z.of_nat k = 500)
      /\ usb_wait fuel timeout h = (timeout + Z.of_nat k, polled k h).
Proof.
  induction fuel as [|fuel IH]; intros timeout h Ht Hfuel.
  - exists 0%nat. split; [lia|]. split; [intros j Hj; lia|]. split; [right; lia|].
    apply usb_wait_run; [lia | lia | lia | intros j Hj; lia | right; lia].
  - destruct (host_connected h (usb_polls h)) eqn:Hnow.
    + exists 0%nat. rewrite Nat.add_0_r. split; [lia|]. split; [intros j Hj; lia|].
      split; [left; exact Hnow|].
      apply usb_wait_run; [lia | lia | lia | intros j Hj; lia | left].
      rewrite Nat.add_0_r. exact Hnow.
    + destruct (Z.eq_dec timeout 500) as [Hfull|Hless].
      * exists 0%nat. split; [lia|]. split; [intros j Hj; lia|]. split; [right; lia|].
        apply usb_wait_run; [lia | lia | lia | intros j Hj; lia | right; lia].
      * destruct (IH (timeout + 1) (furi_delay_ms 10 (snd (furi_hal_usb_is_connected h))))
          as (k & Hk & Hquiet & Hend & _); [lia | lia |].
        cbn [furi_hal_usb_is_connected snd furi_delay_ms emit usb_polls host_connected]
          in Hquiet, Hend.
        assert (Hquiet' : forall j, (j < S k)%nat -> host_connected h (usb_polls h + j) = false).
        { intros [|j] Hj.
          - rewrite Nat.add_0_r. exact Hnow.
          - replace (usb_polls h + S j)%nat with (S (usb_polls h) + j)%nat by lia.
            apply Hquiet. lia. }
        assert (Hend' : host_connected h (usb_polls h + S k) = true
                        \/ timeout + Z.of_nat (S k) = 500).
        { replace (usb_polls h + S k)%nat with (S (usb_polls h) + k)%nat by lia.
          destruct Hend as [Hend|Hend]; [left; exact Hend | right; lia]. }
        exists (S k). split; [lia|]. split; [exact Hquiet'|]. split; [exact Hend'|].
        apply usb_wait_run; [lia | lia | lia | exact Hquiet' | exact Hend'].
Qed.

(** The events of a send whose polling loop ended after [k] unanswered
    polls. *)
Lemma send_command_after_wait : forall command h k,
    usb_wait 500 0 (furi_hal_usb_set_config usb_hid h)
    = (0 + Z.of_nat k, polled k (furi_hal_usb_set_config usb_hid h)) ->
    hal_trace (send_command command h)
    = hal_trace h ++ [EvUsbSetConfig usb_hid] ++ polling k
        ++ [EvUsbIsConnected (host_connected h (usb_polls h + k));
            EvUsbIsConnected (host_connected h (usb_polls h + k + 1))]
        ++ (if host_connected h (usb_polls h + k + 1)
            then [EvDelayMs 500] ++ emitted (type_command command)
                   ++ [EvUsbSetConfig usb_hid]
            else []).
Proof.
  intros command h k Hrun.
  unfold send_command. rewrite Hrun.
  set (h1 := furi_hal_usb_set_config usb_hid h).
  assert (Hpoll : furi_hal_usb_is_connected (polled k h1)
                  = (host_connected h (usb_polls h + k + 1),
                     {| usb_config := usb_hid;
                        usb_polls := S (S (usb_polls h + k));
                        host_connected := host_connected h;
                        hal_trace :=
                          hal_trace h ++ [EvUsbSetConfig usb_hid] ++ polling k
                            ++ [EvUsbIsConnected (host_connected h (usb_polls h + k));
                                EvUsbIsConnected (host_connected h (usb_polls h + k + 1))] |})).
  { unfold furi_hal_usb_is_connected, polled, h1, furi_hal_usb_set_config, emit.
    cbn [usb_config usb_polls host_connected hal_trace].
    replace (S (usb_polls h + k)) with (usb_polls h + k + 1)%nat by lia.
    do 2 f_equal; try lia.
    rewrite <- !app_assoc. reflexivity. }
  rewrite Hpoll.
  destruct (host_connected h (usb_polls h + k + 1)); cbn [negb hal_trace].
  - unfold furi_hal_usb_set_config at 1. cbn [emit hal_trace].
    rewrite type_command_emitted. unfold furi_delay_ms. cbn [emit hal_trace].
    rewrite <- !app_assoc. cbn [app].
    reflexivity.
  - rewrite app_nil_r. reflexivity.
Qed.

(** The shape of the events of a send, for any host. *)
Lemma send_command_shape : forall command h,
    exists k b1 b2,
      (k <= 500)%nat
      /\ hal_trace (send_command command h)
         = hal_trace h ++ [EvUsbSetConfig usb_hid] ++ polling k
             ++ [EvUsbIsConnected b1; EvUsbIsConnected b2]
             ++ (if b2
                 then [EvDelayMs 500] ++ emitted (type_command command)
                        ++ [EvUsbSetConfig usb_hid]
                 else []).
Proof.
  intros command h.
  destruct (usb_wait_any 500 0 (furi_hal_usb_set_config usb_hid h))
    as (k & Hk & _ & _ & Hrun); [lia | lia |].
  exists k, (host_connected h (usb_polls h + k)), (host_connected h (usb_polls h + k + 1)).
  split; [lia|]. apply send_command_after_wait. exact Hrun.
Qed.

(** X5.  Whatever the host answers, [send_command] selects the HID
    configuration, waits through some [k <= 500] unanswered polls of 10 ms
    (ended by an answer or by the count of 500), polls twice more, and goes
    by the last answer alone: if it is yes, 500 ms, the typed string and a
    second selection of the HID configuration follow; if it is no, nothing
    follows, even when the poll before it was answered. *)
Theorem send_command_any_host : forall command h,
    exists k,
      (k <= 500)%nat
      /\ (forall j, (j < k)%nat -> host_connected h (usb_polls h + j) = false)
      /\ (host_connected h (usb_polls h + k) = true \/ k = 500%nat)
      /\ hal_trace (send_command command h)
         = hal_trace h ++ [EvUsbSetConfig usb_hid] ++ polling k
             ++ [EvUsbIsConnected (host_connected h (usb_polls h + k));
                 EvUsbIsConnected (host_connected h (usb_polls h + k + 1))]
             ++ (if host_connected h (usb_polls h + k + 1)
                 then [EvDelayMs 500] ++ emitted (type_command command)
                        ++ [EvUsbSetConfig usb_hid]
                 else []).
Proof.
  intros command h.
  destruct (usb_wait_any 500 0 (furi_hal_usb_set_config usb_hid h))
    as (k & Hk & Hquiet & Hend & Hrun); [lia | lia |].
  exists k. split; [lia|]. split; [exact Hquiet|].
  split; [destruct Hend as [Hend|Hend]; [left; exact Hend | right; lia]|].
  apply send_command_after_wait. exact Hrun.
Qed.

Lemma polling_held : forall k held, held_after (polling k) held = held.
Proof. intros k held. apply held_after_quiet. apply polling_quiet. Qed.

(** X3.  A send leaves no key held down, whatever the host does and
    whatever the string: the events [send_command] adds to the trace,
    read from a state with no key held, end with no key held. *)
Theorem send_command_releases : forall command h,
    exists evs,
      hal_trace (send_command command h) = hal_trace h ++ evs
      /\ held_after evs [] = [].
Proof.
  intros command h.
  destruct (send_command_shape command h) as (k & b1 & b2 & _ & Htrace).
  eexists. split; [exact Htrace|].
  cbn [app held_after]. rewrite held_after_app, polling_held.
  cbn [held_after].
  destruct b2; [|reflexivity].
  cbn [app held_after]. rewrite held_after_app, type_command_releases. reflexivity.
Qed.

(** X6.  A send blocks for a bounded time: the delays [send_command] adds
    come to at most 5000 ms of polling, 500 ms of settling and 130 ms for
    each character of the string. *)
Theorem send_command_duration : forall command h,
    exists evs,
      hal_trace (send_command command h) = hal_trace h ++ evs
      /\ 0 <= elapsed_ms evs <= 5500 + 130 * Z.of_nat (strlen command).
Proof.
  intros command h.
  destruct (send_command_shape command h) as (k & b1 & b2 & Hk & Htrace).
  eexists. split; [exact Htrace|].
  rewrite !elapsed_ms_app, polling_elapsed.
  pose proof (type_command_elapsed_le command) as Htyped.
  destruct b2.
  - rewrite !elapsed_ms_app. cbn [elapsed_ms fold_right delay_of].
    fold (elapsed_ms (emitted (type_command command))). lia.
  - cbn [elapsed_ms fold_right delay_of]. lia.
Qed.

(** ** The catalog as a whole *)

Lemma matches_partition : forall table,
    matches MenuCategoryMain table + matches MenuCategoryTarot table
    + matches MenuCategoryContent table + matches MenuCategoryNSFW table
    = Z.of_nat (List.length (entries table)).
Proof.
  induction table as [|e table IH]; [reflexivity|].
  rewrite !matches_cons. cbn [entries].
  destruct (name e); [|reflexivity].
  cbn [List.length]. unfold in_category.
  destruct (category e); cbn [MenuCategory_eqb]; lia.
Qed.

Lemma entries_length : forall table, (List.length (entries table) <= List.length table)%nat.
Proof.
  induction table as [|e table IH]; [apply le_n|].
  cbn [entries]. destruct (name e); cbn [List.length]; lia.
Qed.

Lemma matches_small : forall cat table,
    (List.length table < 256)%nat -> matches cat table < 256.
Proof.
  intros cat table Hlen. pose proof (matches_le_length cat table). lia.
Qed.

(** X7.  The four categories split the catalog: for an array of fewer than
    256 elements the four counts add up to the number of entries in front of
    the sentinel, so every entry is counted once and the sentinel never. *)
Theorem counts_partition : forall table,
    (List.length table < 256)%nat ->
    count_menu_items table MenuCategoryMain + count_menu_items table MenuCategoryTarot
    + count_menu_items table MenuCategoryContent + count_menu_items table MenuCategoryNSFW
    = Z.of_nat (List.length (entries table)).
Proof.
  intros table Hlen.
  rewrite !count_menu_items_spec by (apply matches_small; exact Hlen).
  apply matches_partition.
Qed.

Lemma counts_partition_witness :
  count_menu_items commands MenuCategoryMain + count_menu_items commands MenuCategoryTarot
  + count_menu_items commands MenuCategoryContent + count_menu_items commands MenuCategoryNSFW
  = Z.of_nat (List.length (entries commands)).
Proof.
  apply counts_partition. repeat constructor.
Defined.

(** Positions are listed in increasing order, from [start] on. *)
Lemma positions_from_sorted : forall cat es start,
    StronglySorted lt (positions_from start es cat)
    /\ Forall (fun p => (start <= p)%nat) (positions_from start es cat).
Proof.
  intros cat. induction es as [|e es IH]; intros start.
  - split; constructor.
  - rewrite positions_from_cons.
    destruct (IH (S start)) as [Hs Hf].
    assert (Hf' : Forall (fun p => (start <= p)%nat) (positions_from (S start) es cat)).
    { eapply Forall_impl; [|exact Hf]. intros p Hp. cbn beta in Hp. lia. }
    destruct (in_category cat e).
    + split.
      * constructor; [exact Hs|].
        eapply Forall_impl; [|exact Hf]. intros p Hp. cbn beta in Hp. lia.
      * constructor; [apply le_n | exact Hf'].
    + split; assumption.
Qed.

Lemma sorted_nth_lt : forall (l : list nat) i j p q,
    StronglySorted lt l ->
    (i < j)%nat ->
    nth_error l i = Some p ->
    nth_error l j = Some q ->
    (p < q)%nat.
Proof.
  induction l as [|x l IH]; intros i j p q Hs Hij Hp Hq.
  - destruct i; discriminate.
  - inversion Hs as [|? ? Hs' Hall]; subst.
    destruct j as [|j]; [lia|].
    destruct i as [|i].
    + cbn in Hp, Hq. inversion Hp; subst x.
      apply nth_error_In in Hq.
      rewrite Forall_forall in Hall. apply Hall. exact Hq.
    + cbn in Hp, Hq. apply (IH i j p q Hs'); [lia | exact Hp | exact Hq].
Qed.

Lemma get_menu_item_in_range : forall table cat i p,
    matches cat table < 256 ->
    get_menu_item table cat i = Some p ->
    0 <= i < count_menu_items table cat.
Proof.
  intros table cat i p Hb Hget.
  rewrite count_menu_items_spec by exact Hb.
  destruct (Z_lt_dec i 0) as [Hneg|Hpos].
  - unfold get_menu_item in Hget.
    rewrite get_loop_missing in Hget; [discriminate | lia | lia | left; lia].
  - destruct (Z_lt_dec i (matches cat table)) as [Hin|Hout]; [lia|].
    rewrite get_menu_item_missing in Hget; [discriminate | exact Hb |].
    rewrite count_menu_items_spec by exact Hb. lia.
Qed.

(** X8.  Lookups keep the order of the array and never share an entry: in
    an array of fewer than 256 elements a larger index of a category gives a
    later element, and an element returned for one category and index is
    returned for no other category or index. *)
Theorem lookups_ordered_and_disjoint : forall table,
    (List.length table < 256)%nat ->
    (forall cat i j p q,
        get_menu_item table cat i = Some p ->
        get_menu_item table cat j = Some q ->
        i < j -> (p < q)%nat)
    /\ (forall cat1 cat2 i j p,
           get_menu_item table cat1 i = Some p ->
           get_menu_item table cat2 j = Some p ->
           cat1 = cat2 /\ i = j).
Proof.
  intros table Hlen.
  assert (Hmono : forall cat i j p q,
             get_menu_item table cat i = Some p ->
             get_menu_item table cat j = Some q ->
             i < j -> (p < q)%nat).
  { intros cat i j p q Hp Hq Hij.
    pose proof (matches_small cat table Hlen) as Hb.
    pose proof (get_menu_item_in_range _ _ _ _ Hb Hp) as Hi.
    pose proof (get_menu_item_in_range _ _ _ _ Hb Hq) as Hj.
    rewrite get_menu_item_found in Hp, Hq by assumption.
    destruct (positions_from_sorted cat (entries table) 0) as [Hs _].
    eapply sorted_nth_lt; [exact Hs | | exact Hp | exact Hq]. lia. }
  split; [exact Hmono|].
  intros cat1 cat2 i j p Hp Hq.
  destruct (get_menu_item_valid _ _ _ _ Hp) as (_ & e1 & n1 & He1 & _ & Hc1).
  destruct (get_menu_item_valid _ _ _ _ Hq) as (_ & e2 & n2 & He2 & _ & Hc2).
  assert (Hcat : cat1 = cat2) by congruence.
  split; [exact Hcat|]. clear Hc1 Hc2 He1 He2. subst cat2.
  destruct (Z.lt_trichotomy i j) as [Hlt|[Heq|Hgt]]; [|exact Heq|].
  - pose proof (Hmono _ _ _ _ _ Hp Hq Hlt). lia.
  - pose proof (Hmono _ _ _ _ _ Hq Hp Hgt). lia.
Qed.

Lemma lookups_ordered_and_disjoint_witness :
  (3 < 4)%nat
  /\ (MenuCategoryContent = MenuCategoryContent /\ 2 = 2).
Proof.
  assert (Hlen : (List.length commands < 256)%nat) by repeat constructor.
  destruct (lookups_ordered_and_disjoint commands Hlen) as [Horder Hshare].
  split.
  - apply (Horder MenuCategoryTarot 3 4 3%nat 4%nat); reflexivity.
  - apply (Hshare MenuCategoryContent MenuCategoryContent 2 2 7%nat); reflexivity.
Defined.

Lemma entries_prefix : forall table p,
    (p < List.length (entries table))%nat ->
    nth_error (entries table) p = nth_error table p.
Proof.
  induction table as [|e table IH]; intros p Hp; cbn [entries] in *.
  - cbn in Hp. lia.
  - destruct (name e); [|cbn in Hp; lia].
    destruct p as [|p]; [reflexivity|]. cbn [nth_error]. apply IH.
    cbn [List.length] in Hp. lia.
Qed.

Lemma positions_from_complete : forall cat es start k e,
    nth_error es k = Some e ->
    in_category cat e = true ->
    In (start + k)%nat (positions_from start es cat).
Proof.
  intros cat. induction es as [|x es IH]; intros start k e Hk Hc.
  - destruct k; discriminate.
  - rewrite positions_from_cons. destruct k as [|k].
    + cbn in Hk. inversion Hk; subst x. rewrite Hc, Nat.add_0_r. left. reflexivity.
    + cbn in Hk. replace (start + S k)%nat with (S start + k)%nat by lia.
      destruct (in_category cat x); [right|]; eapply IH; eauto.
Qed.

(** X9.  No entry is out of reach of the lookup: in an array of fewer than
    256 elements, every element in front of the sentinel is returned by
    [get_menu_item] for its own category at some index below that
    category's count. *)
Theorem every_entry_listed : forall table p e,
    (List.length table < 256)%nat ->
    (p < List.length (entries table))%nat ->
    deref table p = Some e ->
    exists i,
      0 <= i < count_menu_items table (category e)
      /\ get_menu_item table (category e) i = Some p.
Proof.
  intros table p e Hlen Hp He.
  pose proof (matches_small (category e) table Hlen) as Hb.
  unfold deref in He. rewrite <- entries_prefix in He by exact Hp.
  assert (Hin : In p (category_positions table (category e))).
  { unfold category_positions.
    apply (positions_from_complete (category e) (entries table) 0 p e He).
    unfold in_category. apply MenuCategory_eqb_eq. reflexivity. }
  apply In_nth_error in Hin. destruct Hin as [k Hk].
  assert (Hklen : (k < List.length (category_positions table (category e)))%nat).
  { apply nth_error_Some. congruence. }
  assert (Hcount : Z.of_nat (List.length (category_positions table (category e)))
                   = count_menu_items table (category e)).
  { rewrite count_menu_items_spec by exact Hb.
    unfold category_positions. apply positions_from_length. }
  exists (Z.of_nat k). split; [lia|].
  rewrite get_menu_item_found by (try exact Hb; lia).
  rewrite Nat2Z.id. exact Hk.
Qed.

Lemma every_entry_listed_witness :
  exists i,
    0 <= i < count_menu_items commands MenuCategoryNSFW
    /\ get_menu_item commands MenuCategoryNSFW i = Some 10%nat.
Proof.
  apply (every_entry_listed commands 10
           (entry "NSFW Image"
              ("celestecli --nsfw --image --request "
                 ++ quoted "generate NSFW image of Celeste" ++ nl)
              MenuCategoryNSFW)).
  - repeat constructor.
  - repeat constructor.
  - reflexivity.
Defined.



(** ** The preview of the staged command *)

Lemma strncpy_bytes_empty : forall n, strncpy_bytes EmptyString n = repeat zero n.
Proof. induction n as [|n IH]; [reflexivity|]. cbn [strncpy_bytes repeat]. rewrite IH. reflexivity. Qed.

Lemma strncpy_bytes_spec : forall n src,
    strncpy_bytes src n
    = firstn n (c_chars src) ++ repeat zero (n - List.length (firstn n (c_chars src))).
Proof.
  induction n as [|n IH]; intros src; [reflexivity|].
  destruct src as [|c rest]; cbn [strncpy_bytes c_chars].
  - rewrite strncpy_bytes_empty. reflexivity.
  - destruct (code c =? 0).
    + rewrite strncpy_bytes_empty. reflexivity.
    + cbn [firstn app List.length Nat.sub]. rewrite IH. reflexivity.
Qed.

Lemma strncpy_bytes_length : forall n src, List.length (strncpy_bytes src n) = n.
Proof.
  induction n as [|n IH]; intros src; [reflexivity|].
  destruct src as [|c rest]; cbn [strncpy_bytes]; [|destruct (code c =? 0)];
    cbn [List.length]; rewrite IH; reflexivity.
Qed.

Lemma c_chars_nonzero : forall s, Forall (fun c => (code c =? 0) = false) (c_chars s).
Proof.
  induction s as [|c rest IH]; [constructor|].
  cbn [c_chars]. destruct (code c =? 0) eqn:Hc; constructor; assumption.
Qed.

Lemma buffer_string_app : forall l r,
    Forall (fun c => (code c =? 0) = false) l ->
    buffer_string (l ++ zero :: r) = string_of_list_ascii l.
Proof.
  induction l as [|c l IH]; intros r Hl.
  - reflexivity.
  - inversion Hl as [|? ? Hc Hl']; subst.
    cbn [app buffer_string string_of_list_ascii]. rewrite Hc, IH by exact Hl'.
    reflexivity.
Qed.

Lemma string_of_list_length : forall l,
    String.length (string_of_list_ascii l) = List.length l.
Proof.
  induction l as [|c l IH]; [reflexivity|].
  cbn [string_of_list_ascii String.length List.length]. rewrite IH. reflexivity.
Qed.

(** X11.  The preview line of the Confirm screen is the first 30 characters
    of the staged command, or all of it when it is shorter, whatever the 32
    bytes of the array held before; it never runs past 30 characters. *)
Theorem preview_is_prefix : forall stack command,
    List.length stack = 32%nat ->
    buffer_string (preview_buffer stack command)
    = string_of_list_ascii (firstn 30 (c_chars command))
    /\ (String.length (buffer_string (preview_buffer stack command)) <= 30)%nat.
Proof.
  intros stack command Hstack.
  assert (Heq : buffer_string (preview_buffer stack command)
                = string_of_list_ascii (firstn 30 (c_chars command))).
  { unfold preview_buffer, store, strncpy.
    rewrite firstn_app, skipn_app, strncpy_bytes_length.
    change (firstn (30 - 30) (skipn 30 stack)) with (@nil ascii).
    rewrite (firstn_all2 (strncpy_bytes command 30))
      by (rewrite strncpy_bytes_length; apply le_n).
    rewrite (skipn_all2 (strncpy_bytes command 30))
      by (rewrite strncpy_bytes_length; repeat constructor).
    cbn [app].
    rewrite app_nil_r, strncpy_bytes_spec, <- app_assoc.
    set (cs := firstn 30 (c_chars command)).
    assert (Hcs : Forall (fun c => (code c =? 0) = false) cs).
    { pose proof (c_chars_nonzero command) as Hall.
      rewrite <- (firstn_skipn 30 (c_chars command)) in Hall.
      apply Forall_app in Hall. exact (proj1 Hall). }
    destruct (30 - List.length cs)%nat as [|k].
    - cbn [repeat app]. apply buffer_string_app. exact Hcs.
    - cbn [repeat app]. apply buffer_string_app. exact Hcs. }
  split; [exact Heq|].
  rewrite Heq, string_of_list_length. apply firstn_le_length.
Qed.

Lemma preview_is_prefix_witness :
  buffer_string (preview_buffer (repeat "?"%char 32)
                   "celestecli --tarot --spread celtic")
  = string_of_list_ascii (firstn 30 (c_chars "celestecli --tarot --spread celtic")).
Proof.
  apply (proj1 (preview_is_prefix (repeat "?"%char 32)
                  "celestecli --tarot --spread celtic" eq_refl)).
Defined.

(** ** Frames *)

Lemma markers_app : forall xs ys, markers (xs ++ ys) = markers xs + markers ys.
Proof. intros xs ys. unfold markers. rewrite filter_app, length_app. lia. Qed.

Lemma get_menu_item_some : forall table cat i,
    matches cat table < 256 ->
    0 <= i < count_menu_items table cat ->
    exists p, get_menu_item table cat i = Some p.
Proof.
  intros table cat i Hb Hi.
  rewrite get_menu_item_found by assumption.
  destruct (nth_error (category_positions table cat) (Z.to_nat i)) as [p|] eqn:E;
    [exists p; reflexivity|].
  apply nth_error_None in E.
  assert (Z.of_nat (List.length (category_positions table cat)) = matches cat table).
  { unfold category_positions. apply positions_from_length. }
  rewrite count_menu_items_spec in Hi by exact Hb. lia.
Qed.

Lemma visible_start_value : forall app,
    0 <= selected_item app < 256 ->
    visible_start app = if selected_item app <? 4 then 0 else selected_item app - 3.
Proof.
  intros app Hsel. unfold visible_start, visible_count.
  destruct (Z.ltb_spec (selected_item app) 4) as [Hlt|Hge].
  - replace (selected_item app >=? 4) with false; [reflexivity|].
    symmetry. rewrite Z.geb_leb. apply Z.leb_gt. lia.
  - replace (selected_item app >=? 4) with true.
    + rewrite wrap8_small by lia. lia.
    + symmetry. rewrite Z.geb_leb. apply Z.leb_le. lia.
Qed.

(** A submenu frame: header, the visible rows, footer. *)
Lemma render_submenu_frame : forall table app cv,
    0 <= selected_item app < 256 ->
    render_submenu table app cv
    = fst (draw_rows table app
             (visible_rows (count_menu_items table (current_category app))
                           (visible_start app))
             20
             (cv ++ [CanvasClear; CanvasSetFont FontPrimary;
                     CanvasDrawStr 2 10 (headers (current_category app))]))
        ++ [CanvasSetFont FontSecondary;
            CanvasDrawStrAligned 64 62 AlignCenter AlignBottom
              (Some "OK=Send  Back=Menu"%string)].
Proof.
  intros table app cv Hsel.
  assert (Hstart : 0 <= visible_start app).
  { rewrite visible_start_value by exact Hsel.
    destruct (Z.ltb_spec (selected_item app) 4); lia. }
  unfold render_submenu. rewrite row_loop_rows.
  - unfold visible_rows. rewrite Z.sub_diag, Z.sub_0_r.
    rewrite <- !app_assoc. reflexivity.
  - apply count_menu_items_range.
  - lia.
  - unfold visible_count. lia.
Qed.

Lemma draw_rows_cons : forall table app i rows y cv,
    draw_rows table app (i :: rows) y cv
    = draw_rows table app rows (snd (draw_row table app i y cv))
        (fst (draw_row table app i y cv)).
Proof. intros. unfold draw_rows. cbn [fold_left fst snd]. destruct (draw_row table app i y cv); reflexivity. Qed.

Lemma draw_row_markers : forall table app i y cv p,
    get_menu_item table (current_category app) i = Some p ->
    markers (fst (draw_row table app i y cv))
    = markers cv + (if i =? selected_item app then 1 else 0).
Proof.
  intros table app i y cv p Hget. unfold draw_row. rewrite Hget. cbn [fst].
  destruct (i =? selected_item app); rewrite !markers_app.
  - unfold markers at 2 3. cbn. destruct (name_at table p); cbn; lia.
  - unfold markers at 2. cbn. destruct (name_at table p); cbn; lia.
Qed.

Lemma draw_rows_markers : forall table app rows y cv,
    (forall i, In i rows -> exists p, get_menu_item table (current_category app) i = Some p) ->
    markers (fst (draw_rows table app rows y cv))
    = markers cv + Z.of_nat (count_occ Z.eq_dec rows (selected_item app)).
Proof.
  intros table app. induction rows as [|i rows IH]; intros y cv Hall.
  - cbn. lia.
  - rewrite draw_rows_cons, IH by (intros j Hj; apply Hall; right; exact Hj).
    destruct (Hall i (or_introl eq_refl)) as [p Hp].
    rewrite (draw_row_markers _ _ _ _ _ _ Hp).
    cbn [count_occ].
    destruct (Z.eq_dec i (selected_item app)) as [Heq|Hne].
    + rewrite (proj2 (Z.eqb_eq _ _) Heq). lia.
    + rewrite (proj2 (Z.eqb_neq _ _) Hne). lia.
Qed.

Lemma count_occ_run : forall n a x,
    count_occ Z.eq_dec (map Z.of_nat (seq a n)) (Z.of_nat x)
    = if ((a <=? x) && (x <? a + n))%nat then 1%nat else 0%nat.
Proof.
  induction n as [|n IH]; intros a x.
  - cbn [seq map count_occ].
    destruct (Nat.leb_spec a x), (Nat.ltb_spec x (a + 0)); cbn; try reflexivity; lia.
  - cbn [seq map count_occ]. rewrite IH.
    destruct (Z.eq_dec (Z.of_nat a) (Z.of_nat x)) as [Heq|Hne];
      destruct (Nat.leb_spec a x), (Nat.leb_spec (S a) x),
               (Nat.ltb_spec x (S a + n)), (Nat.ltb_spec x (a + S n));
      cbn; try reflexivity; lia.
Qed.

Lemma count_occ_run_Z : forall n a z,
    0 <= z ->
    count_occ Z.eq_dec (map Z.of_nat (seq a n)) z
    = if (Z.of_nat a <=? z) && (z <? Z.of_nat (a + n)) then 1%nat else 0%nat.
Proof.
  intros n a z Hz. rewrite <- (Z2Nat.id z) by exact Hz. rewrite count_occ_run.
  destruct (Nat.leb_spec a (Z.to_nat z)), (Nat.ltb_spec (Z.to_nat z) (a + n)),
           (Z.leb_spec (Z.of_nat a) (Z.of_nat (Z.to_nat z))),
           (Z.ltb_spec (Z.of_nat (Z.to_nat z)) (Z.of_nat (a + n)));
    cbn [andb]; try reflexivity; lia.
Qed.

Lemma visible_rows_in : forall item_count start i,
    0 <= start ->
    In i (visible_rows item_count start) ->
    start <= i < item_count.
Proof.
  intros item_count start i Hstart Hin. unfold visible_rows, visible_count in Hin.
  apply in_map_iff in Hin. destruct Hin as (k & Hk & Hin).
  apply in_seq in Hin. lia.
Qed.

Lemma main_menu_rows_markers : forall app rows cv y,
    markers (fst (fold_left (main_menu_row app) rows (cv, y)))
    = markers cv + Z.of_nat (count_occ Z.eq_dec (map Z.of_nat rows) (selected_item app)).
Proof.
  intros app. induction rows as [|i rows IH]; intros cv y.
  - cbn. lia.
  - cbn [fold_left map count_occ]. unfold main_menu_row at 2. cbn [fst snd].
    rewrite IH.
    destruct (Z.eq_dec (Z.of_nat i) (selected_item app)) as [Heq|Hne].
    + rewrite (proj2 (Z.eqb_eq _ _) Heq), !markers_app.
      unfold markers at 2 3. cbn. destruct (nth_error menu_items i); cbn; lia.
    + rewrite (proj2 (Z.eqb_neq _ _) Hne), !markers_app.
      unfold markers at 2. cbn. destruct (nth_error menu_items i); cbn; lia.
Qed.

(** X12.  The frame of a menu marks the selected row, once: the main menu
    draws one marker when the selection is one of its four rows and none
    otherwise; a submenu over an array of fewer than 256 elements draws one
    marker whenever the selection is below the item count, so scrolling
    never moves the selected row out of the four rows shown. *)
Theorem selection_marked_once : forall table app,
    markers (render_main_menu app [])
    = (if (0 <=? selected_item app) && (selected_item app <=? 3) then 1 else 0)
    /\ ((List.length table < 256)%nat ->
        0 <= selected_item app < count_menu_items table (current_category app) ->
        markers (render_submenu table app []) = 1).
Proof.
  intros table app. split.
  - unfold render_main_menu.
    rewrite !markers_app, main_menu_rows_markers, !markers_app.
    change (markers []) with 0. change (markers [CanvasClear]) with 0.
    change (markers [CanvasSetFont FontPrimary]) with 0.
    change (markers [CanvasDrawStr 2 10 (Some "CELESTE CLI"%string)]) with 0.
    change (markers [CanvasSetFont FontSecondary]) with 0.
    change (markers [CanvasDrawStrAligned 64 62 AlignCenter AlignBottom
                       (Some "OK=Select  Back=Exit"%string)]) with 0.
    destruct (Z.leb_spec 0 (selected_item app)) as [Hlo|Hlo];
      [destruct (Z.leb_spec (selected_item app) 3) as [Hhi|Hhi]|]; cbn [andb].
    + rewrite count_occ_run_Z by exact Hlo.
      replace ((Z.of_nat 0 <=? selected_item app)
               && (selected_item app <? Z.of_nat (0 + 4))) with true; [reflexivity|].
      symmetry. apply andb_true_intro.
      split; [apply Z.leb_le | apply Z.ltb_lt]; lia.
    + rewrite (proj1 (count_occ_not_In Z.eq_dec _ _)); [reflexivity|].
      intros Hin. apply in_map_iff in Hin. destruct Hin as (k & Hk & Hin).
      apply in_seq in Hin. lia.
    + rewrite (proj1 (count_occ_not_In Z.eq_dec _ _)); [reflexivity|].
      intros Hin. apply in_map_iff in Hin. destruct Hin as (k & Hk & Hin). lia.
  - intros Hlen Hsel.
    pose proof (matches_small (current_category app) table Hlen) as Hb.
    pose proof (count_menu_items_range table (current_category app)) as Hcount.
    assert (Hsel8 : 0 <= selected_item app < 256) by lia.
    pose proof (visible_start_value app Hsel8) as Hstart.
    assert (Hstart0 : 0 <= visible_start app).
    { rewrite Hstart. destruct (Z.ltb_spec (selected_item app) 4); lia. }
    rewrite render_submenu_frame by exact Hsel8.
    rewrite markers_app, draw_rows_markers.
    + unfold visible_rows, visible_count.
      rewrite count_occ_run_Z by lia.
      replace ((Z.of_nat (Z.to_nat (visible_start app)) <=? selected_item app)
               && (selected_item app
                   <? Z.of_nat
                        (Z.to_nat (visible_start app)
                         + Z.to_nat (Z.min 4 (count_menu_items table (current_category app)
                                              - visible_start app)))))
        with true.
      * rewrite markers_app. unfold markers. cbn.
        destruct (headers (current_category app)); reflexivity.
      * symmetry. apply andb_true_intro.
        rewrite Hstart. destruct (Z.ltb_spec (selected_item app) 4);
          (split; [apply Z.leb_le | apply Z.ltb_lt]); lia.
    + intros i Hi. apply visible_rows_in in Hi; [|exact Hstart0].
      apply get_menu_item_some; [exact Hb | lia].
Qed.

Lemma selection_marked_once_witness :
  markers (render_submenu commands (browsing AppStateTarotMenu MenuCategoryTarot 4) []) = 1.
Proof.
  apply (proj2 (selection_marked_once commands
                  (browsing AppStateTarotMenu MenuCategoryTarot 4))).
  - repeat constructor.
  - split; [discriminate | reflexivity].
Defined.

(** A renderer only adds draw calls to the canvas it is given, which is
    what [drawn] relies on. *)
Lemma draw_row_appends : forall table app i y cv,
    draw_row table app i y cv
    = (cv ++ fst (draw_row table app i y []), snd (draw_row table app i y [])).
Proof.
  intros table app i y cv. unfold draw_row.
  destruct (get_menu_item table (current_category app) i); cbn [fst snd].
  - destruct (i =? selected_item app); rewrite <- ?app_assoc; reflexivity.
  - rewrite app_nil_r. reflexivity.
Qed.

Lemma row_loop_appends : forall table app item_count start fuel i y cv,
    row_loop table fuel app item_count start i y cv
    = cv ++ row_loop table fuel app item_count start i y [].
Proof.
  intros table app item_count start.
  induction fuel as [|fuel IH]; intros i y cv; cbn [row_loop].
  - destruct ((i <? item_count) && (i - start <? visible_count)); rewrite app_nil_r; reflexivity.
  - destruct ((i <? item_count) && (i - start <? visible_count));
      [|rewrite app_nil_r; reflexivity].
    rewrite (draw_row_appends table app i y cv).
    destruct (draw_row table app i y []) as [ops y'] eqn:Hrow. cbn [fst snd].
    rewrite (IH _ _ (cv ++ ops)), (IH _ _ ops), app_assoc. reflexivity.
Qed.

Lemma render_submenu_appends : forall table app cv,
    render_submenu table app cv = cv ++ render_submenu table app [].
Proof.
  intros table app cv. unfold render_submenu.
  rewrite (row_loop_appends _ _ _ _ _ _ _ (((cv ++ _) ++ _) ++ _)).
  rewrite (row_loop_appends _ _ _ _ _ _ _ ((([] ++ _) ++ _) ++ _)).
  rewrite <- !app_assoc. reflexivity.
Qed.

Lemma draw_rows_extends : forall table app rows y cv,
    exists ops,
      fst (draw_rows table app rows y cv) = cv ++ ops
      /\ forallb has_string (map Draw ops) = true.
Proof.
  intros table app. induction rows as [|i rows IH]; intros y cv.
  - exists []. split; [cbn; rewrite app_nil_r; reflexivity | reflexivity].
  - rewrite draw_rows_cons.
    destruct (IH (snd (draw_row table app i y cv)) (fst (draw_row table app i y cv)))
      as (ops & Hops & Hok).
    rewrite Hops. unfold draw_row.
    destruct (get_menu_item table (current_category app) i) as [p|] eqn:Hget; cbn [fst].
    + destruct (get_menu_item_valid _ _ _ _ Hget) as (_ & e & n & He & Hn & _).
      assert (Hname : name_at table p = Some n).
      { unfold name_at. rewrite He. exact Hn. }
      rewrite Hname.
      destruct (i =? selected_item app).
      * exists ([CanvasDrawStr 4 y (Some ">"%string); CanvasDrawStr 12 y (Some n)] ++ ops).
        split; [rewrite <- !app_assoc; reflexivity | exact Hok].
      * exists ([CanvasDrawStr 12 y (Some n)] ++ ops).
        split; [rewrite <- !app_assoc; reflexivity | exact Hok].
    + exists ops. split; [reflexivity | exact Hok].
Qed.

Lemma main_menu_rows_extend : forall app rows cv y,
    (forall i, In i rows -> (i < 4)%nat) ->
    exists ops,
      fst (fold_left (main_menu_row app) rows (cv, y)) = cv ++ ops
      /\ forallb has_string (map Draw ops) = true.
Proof.
  intros app. induction rows as [|i rows IH]; intros cv y Hrows.
  - exists []. split; [cbn; rewrite app_nil_r; reflexivity | reflexivity].
  - cbn [fold_left].
    assert (Hi : (i < 4)%nat) by (apply Hrows; left; reflexivity).
    assert (Hlabel : exists s, nth_error menu_items i = Some s).
    { do 4 (destruct i as [|i]; [eexists; reflexivity|]). lia. }
    destruct Hlabel as [s Hs].
    assert (Hrow : exists row,
               main_menu_row app (cv, y) i = (cv ++ row, wrap8 (y + 10))
               /\ forallb has_string (map Draw row) = true).
    { unfold main_menu_row. cbn [fst snd]. rewrite Hs.
      destruct (Z.of_nat i =? selected_item app).
      - exists [CanvasDrawStr 4 y (Some ">"%string); CanvasDrawStr 12 y (Some s)].
        split; [rewrite <- app_assoc; reflexivity | reflexivity].
      - exists [CanvasDrawStr 12 y (Some s)]. split; reflexivity. }
    destruct Hrow as (row & Hrow & Hrowok). rewrite Hrow.
    destruct (IH (cv ++ row) (wrap8 (y + 10))) as (ops & Hops & Hok);
      [intros j Hj; apply Hrows; right; exact Hj|].
    exists (row ++ ops). split.
    + rewrite app_assoc. exact Hops.
    + rewrite map_app, forallb_app, Hrowok, Hok. reflexivity.
Qed.

Lemma forallb_strings_app : forall xs ys,
    forallb has_string (xs ++ ys) = forallb has_string xs && forallb has_string ys.
Proof. intros xs ys. apply forallb_app. Qed.

(** X13.  In every state the program can be in, the frame [render_callback]
    draws starts by clearing the canvas, and no draw call in it is handed a
    NULL string: the header of a submenu, the names of its rows, and the
    name and preview of the staged command are all there. *)
Theorem frames_are_complete : forall app stack scr,
    reachable commands app ->
    exists calls,
      render_callback commands stack app scr = scr ++ Draw CanvasClear :: calls
      /\ forallb has_string calls = true.
Proof.
  intros app stack scr Hreach. counts.
  apply reachable_inv in Hreach. unfold app_inv in Hreach.
  assert (Hsub : forall c,
             browsing_inv commands c app -> c <> MenuCategoryMain ->
             exists calls,
               drawn (render_submenu commands app) scr = scr ++ Draw CanvasClear :: calls
               /\ forallb has_string calls = true).
  { intros c [Hc Hsel] Hne. unfold drawn.
    assert (Hsel8 : 0 <= selected_item app < 256).
    { destruct c; try congruence;
        rewrite ?Hcount_tarot, ?Hcount_content, ?Hcount_nsfw in Hsel; lia. }
    rewrite render_submenu_frame by exact Hsel8.
    match goal with
    | |- context [draw_rows ?t ?a ?rows ?y ?cv] =>
        destruct (draw_rows_extends t a rows y cv) as (ops & Hops & Hok)
    end.
    rewrite Hops, !map_app. cbn [map List.app].
    eexists. split; [reflexivity|].
    cbn [forallb has_string andb]. rewrite forallb_strings_app, Hok.
    rewrite Hc. destruct c; try congruence; reflexivity. }
  unfold render_callback.
  destruct (state app) eqn:Hs.
  - unfold render_splash. eexists. split; reflexivity.
  - unfold drawn, render_main_menu.
    match goal with
    | |- context [fold_left (main_menu_row app) ?rows (?cv, ?y)] =>
        destruct (main_menu_rows_extend app rows cv y) as (ops & Hops & Hok)
    end.
    { intros i Hi. apply in_seq in Hi. lia. }
    unfold Canvas in *. rewrite Hops, !map_app. cbn [map List.app].
    eexists. split; [reflexivity|].
    cbn [forallb has_string andb]. rewrite !forallb_strings_app, Hok. reflexivity.
  - apply (Hsub MenuCategoryTarot Hreach). discriminate.
  - apply (Hsub MenuCategoryContent Hreach). discriminate.
  - apply (Hsub MenuCategoryNSFW Hreach). discriminate.
  - destruct Hreach as (_ & _ & p & Hp & Hget).
    destruct (get_menu_item_valid _ _ _ _ Hget) as (_ & e & n & He & Hn & _).
    unfold drawn, render_confirm. rewrite Hp.
    unfold name_at. rewrite He, Hn.
    eexists. split; reflexivity.
  - unfold drawn, render_executing. eexists. split; reflexivity.
  - contradiction.
Qed.

Lemma frames_are_complete_witness :
  exists calls,
    render_callback commands (repeat "?"%char 32) staged_app []
    = [] ++ Draw CanvasClear :: calls
    /\ forallb has_string calls = true.
Proof.
  apply (frames_are_complete staged_app (repeat "?"%char 32) [] staged_app_reachable).
Defined.

(** ** The main loop and the splash screen *)

Lemma main_loop_turns_S : forall n s,
    main_loop_turns (S n) s = main_loop_turn (main_loop_turns n s).
Proof. reflexivity. Qed.

Lemma main_loop_turns_state : forall n m h,
    (n <= 300)%nat ->
    fst (main_loop_turns n (app_init m, h))
    = (if (n <? 300)%nat
       then set_splash_timer (Z.of_nat n) (app_init m)
       else set_selected_item 0
              (set_state AppStateMainMenu (set_splash_timer 300 (app_init m)))).
Proof.
  induction n as [|n IH]; intros m h Hn.
  - reflexivity.
  - rewrite main_loop_turns_S. unfold main_loop_turn. cbn [fst].
    rewrite IH by lia.
    destruct (Nat.ltb_spec n 300) as [Hlt|Hge]; [|lia].
    unfold main_loop_tick. cbn [state set_splash_timer app_init splash_timer].
    rewrite wrap32_small by lia.
    replace (Z.of_nat n + 1) with (Z.of_nat (S n)) by lia.
    destruct (Nat.ltb_spec (S n) 300) as [Hlt'|Hge'].
    + replace (Z.of_nat (S n) >=? 300) with false; [reflexivity|].
      symmetry. rewrite Z.geb_leb. apply Z.leb_gt. lia.
    + replace (S n) with 300%nat by lia. reflexivity.
Qed.

Lemma main_loop_turns_settled : forall k m h,
    fst (main_loop_turns (300 + k) (app_init m, h))
    = set_selected_item 0
        (set_state AppStateMainMenu (set_splash_timer 300 (app_init m))).
Proof.
  induction k as [|k IH]; intros m h.
  - rewrite Nat.add_0_r, main_loop_turns_state by apply le_n. reflexivity.
  - replace (300 + S k)%nat with (S (300 + k)) by lia.
    rewrite main_loop_turns_S. unfold main_loop_turn. cbn [fst].
    rewrite IH. reflexivity.
Qed.

Lemma main_loop_turns_trace : forall n s,
    hal_trace (snd (main_loop_turns n s)) = hal_trace (snd s) ++ repeat (EvDelayMs 50) n.
Proof.
  induction n as [|n IH]; intros s.
  - cbn. rewrite app_nil_r. reflexivity.
  - rewrite main_loop_turns_S. unfold main_loop_turn.
    cbn [snd furi_delay_ms emit hal_trace]. rewrite IH.
    rewrite <- app_assoc. f_equal.
    change (EvDelayMs 50 :: repeat (EvDelayMs 50) n) with (repeat (EvDelayMs 50) (S n)).
    rewrite <- repeat_cons. reflexivity.
Qed.

(** X14.  Left alone, the program is still on the splash screen after each
    of the first 299 turns of the main loop, and on the main menu with
    selection 0 after 300 turns and every later one; each turn sleeps
    50 ms, the timer stops at 300, and [running] stays true. *)
Theorem splash_times_out : forall n m h,
    let app := fst (main_loop_turns n (app_init m, h)) in
    (state app = AppStateSplash <-> (n < 300)%nat)
    /\ ((300 <= n)%nat -> state app = AppStateMainMenu /\ selected_item app = 0)
    /\ splash_timer app = Z.min (Z.of_nat n) 300
    /\ running app = true
    /\ hal_trace (snd (main_loop_turns n (app_init m, h)))
       = hal_trace h ++ repeat (EvDelayMs 50) n.
Proof.
  intros n m h app. subst app.
  assert (Hstate : fst (main_loop_turns n (app_init m, h))
                   = (if (n <? 300)%nat
                      then set_splash_timer (Z.of_nat n) (app_init m)
                      else set_selected_item 0
                             (set_state AppStateMainMenu
                                (set_splash_timer 300 (app_init m))))).
  { destruct (Nat.ltb_spec n 300) as [Hlt|Hge].
    - rewrite main_loop_turns_state by lia.
      destruct (Nat.ltb_spec n 300); [reflexivity | lia].
    - replace n with (300 + (n - 300))%nat by lia. apply main_loop_turns_settled. }
  rewrite Hstate, main_loop_turns_trace.
  destruct (Nat.ltb_spec n 300) as [Hlt|Hge];
    cbn [state selected_item splash_timer running set_splash_timer set_state
         set_selected_item app_init snd].
  - repeat split; try reflexivity; try lia.
  - repeat split; try reflexivity; try lia; intros H; try discriminate H; lia.
Qed.

Lemma splash_times_out_witness :
  state (fst (main_loop_turns 300 (app_init 0, fresh_hal))) = AppStateMainMenu
  /\ selected_item (fst (main_loop_turns 300 (app_init 0, fresh_hal))) = 0.
Proof.
  apply (proj1 (proj2 (splash_times_out 300 0 fresh_hal))). apply le_n.
Defined.

(** ** What the input handler leaves alone *)

(** Case analysis on the event and on the screen. *)
Ltac by_event ev :=
  destruct ev as [[] []]; unfold input_callback; cbn [type key fst snd].

Ltac by_state app :=
  let Es := fresh "Es" in
  destruct (state app) eqn:Es;
  repeat match goal with
         | |- context [if ?b then _ else _] =>
             let E := fresh "E" in destruct b eqn:E
         | |- context [match get_menu_item ?t ?c ?i with _ => _ end] =>
             let E := fresh "E" in destruct (get_menu_item t c i) eqn:E
         | |- context [match current_command ?a with _ => _ end] =>
             let E := fresh "E" in destruct (current_command a) eqn:E
         | |- context [match current_category ?a with _ => _ end] =>
             let E := fresh "E" in destruct (current_category a) eqn:E
         end;
  fields.

Lemma input_keeps_timer : forall table ev app h,
    splash_timer (fst (input_callback table ev app h)) = splash_timer app.
Proof.
  intros table ev app h. by_event ev; try reflexivity;
    unfold on_up, on_down, on_ok, on_back; by_state app; reflexivity.
Qed.

Lemma input_never_splashes : forall table ev app h,
    state (fst (input_callback table ev app h)) = AppStateSplash ->
    state app = AppStateSplash.
Proof.
  intros table ev app h. by_event ev; try (intros H; exact H);
    unfold on_up, on_down, on_ok, on_back; by_state app;
    intros H; try discriminate H; try reflexivity; congruence.
Qed.

Lemma tick_never_splashes : forall app,
    state (main_loop_tick app) = AppStateSplash -> state app = AppStateSplash.
Proof.
  intros app. unfold main_loop_tick. by_state app; intros H; congruence.
Qed.

Lemma reachable_timer : forall table app,
    reachable table app ->
    0 <= splash_timer app <= 300
    /\ (state app = AppStateSplash -> splash_timer app < 300).
Proof.
  intros table app Hreach.
  induction Hreach as [m Hm | app _ IH | app ev h _ IH | app p _ IH Hs Hp].
  - cbn. split; [lia|]. intros _. reflexivity.
  - destruct IH as [Hrange Hsplash]. unfold main_loop_tick.
    destruct (state app) eqn:Hs; try (split; [exact Hrange | intros H; congruence]).
    specialize (Hsplash eq_refl).
    cbn [set_splash_timer splash_timer].
    rewrite wrap32_small by lia.
    destruct (Z.geb_spec (splash_timer app + 1) 300) as [Hge|Hlt]; fields.
    + split; [lia | intros H; discriminate H].
    + split; [lia | intros _; lia].
  - rewrite input_keeps_timer. destruct IH as [Hrange Hsplash].
    split; [exact Hrange|]. intros H. apply Hsplash.
    eapply input_never_splashes. exact H.
  - unfold begin_send. fields. destruct IH as [Hrange _].
    split; [exact Hrange | intros H; discriminate H].
Qed.

(** X15.  The splash screen is left for good and its timer never overflows:
    no input and no turn of the main loop leads from another screen to the
    splash screen, and in every state the program can be in the timer is at
    most 300, and below 300 while the splash screen shows. *)
Theorem splash_is_left_for_good : forall table,
    (forall ev app h,
        state app <> AppStateSplash ->
        state (fst (input_callback table ev app h)) <> AppStateSplash
        /\ state (main_loop_tick app) <> AppStateSplash)
    /\ (forall app,
           reachable table app ->
           0 <= splash_timer app <= 300
           /\ (state app = AppStateSplash -> splash_timer app < 300)).
Proof.
  intros table. split.
  - intros ev app h Hs. split; intros H; apply Hs.
    + eapply input_never_splashes. exact H.
    + apply tick_never_splashes. exact H.
  - apply reachable_timer.
Qed.

Lemma splash_is_left_for_good_witness :
  state (fst (input_callback commands (press InputKeyBack)
                (browsing AppStateTarotMenu MenuCategoryTarot 2) fresh_hal))
  <> AppStateSplash
  /\ 0 <= splash_timer staged_app <= 300.
Proof.
  destruct (splash_is_left_for_good commands) as [Hleft Htimer].
  split.
  - apply (Hleft (press InputKeyBack) (browsing AppStateTarotMenu MenuCategoryTarot 2)
                 fresh_hal).
    discriminate.
  - apply (Htimer staged_app staged_app_reachable).
Defined.

(** X16.  Only Back on the splash screen or on the main menu stops the
    program: it clears [running]; no other input and no turn of the main
    loop changes [running], and nothing ever sets it again. *)
Theorem running_cleared_by_back_only : forall table ev app h,
    let app' := fst (input_callback table ev app h) in
    (ev = press InputKeyBack ->
     state app = AppStateSplash \/ state app = AppStateMainMenu ->
     running app' = false)
    /\ (running app' <> running app ->
        ev = press InputKeyBack
        /\ (state app = AppStateSplash \/ state app = AppStateMainMenu)
        /\ running app = true)
    /\ running (main_loop_tick app) = running app.
Proof.
  intros table ev app h app'. subst app'. split; [|split].
  - intros -> Hs. unfold input_callback, on_back. cbn [press type key fst].
    destruct Hs as [Hs|Hs]; rewrite Hs; reflexivity.
  - by_event ev; try (intros H; exfalso; apply H; reflexivity);
      unfold on_up, on_down, on_ok, on_back; by_state app;
      intros H; try (exfalso; apply H; reflexivity);
      (split; [reflexivity|]); (split; [auto|]);
      (destruct (running app); [reflexivity | exfalso; apply H; reflexivity]).
  - unfold main_loop_tick. by_state app; reflexivity.
Qed.

Lemma running_cleared_by_back_only_witness :
  running (fst (input_callback commands (press InputKeyBack)
                  (browsing AppStateMainMenu MenuCategoryMain 2) fresh_hal)) = false.
Proof.
  apply (proj1 (running_cleared_by_back_only commands (press InputKeyBack)
                  (browsing AppStateMainMenu MenuCategoryMain 2) fresh_hal)).
  - reflexivity.
  - right. reflexivity.
Defined.

(** X17.  Nothing is typed without a confirmation: the input handler
    leaves the HAL as it is unless the event is OK on the Confirm screen
    with a staged command; and what it does to the record never depends on
    the HAL, so the screens follow each other the same whether or not the
    host was there to receive the keys. *)
Theorem hal_touched_by_confirmed_send_only : forall table ev app h,
    (snd (input_callback table ev app h) <> h ->
     ev = press InputKeyOk
     /\ state app = AppStateConfirm
     /\ current_command app <> None)
    /\ (forall h', fst (input_callback table ev app h') = fst (input_callback table ev app h)).
Proof.
  intros table ev app h. split.
  - by_event ev; try (intros H; exfalso; apply H; reflexivity).
    unfold on_ok. by_state app;
      intros H; try (exfalso; apply H; reflexivity).
    split; [reflexivity|]. split; [reflexivity|]. congruence.
  - intros h'. by_event ev; try reflexivity.
    unfold on_ok. by_state app; reflexivity.
Qed.

Lemma hal_touched_by_confirmed_send_only_witness :
  press InputKeyOk = press InputKeyOk
  /\ state staged_app = AppStateConfirm
  /\ current_command staged_app <> None.
Proof.
  apply (proj1 (hal_touched_by_confirmed_send_only commands (press InputKeyOk)
                  staged_app fresh_hal)).
  vm_compute. intros H. apply (f_equal hal_trace) in H. discriminate H.
Defined.

(** ** Moving, staging, sending *)

(** X18.  In a state the program can be in, OK on a submenu always finds
    the entry under the cursor: it stages that entry and shows the Confirm
    screen; the not-found branch of the handler is not taken. *)
Theorem ok_always_stages : forall app h,
    reachable commands app ->
    is_submenu (state app) = true ->
    exists p,
      get_menu_item commands (current_category app) (selected_item app) = Some p
      /\ input_callback commands (press InputKeyOk) app h
         = (set_state AppStateConfirm (set_current_command (Some p) app), h).
Proof.
  intros app h Hreach Hsub. counts.
  apply reachable_inv in Hreach. unfold app_inv, browsing_inv in Hreach.
  assert (Hb : matches (current_category app) commands < 256).
  { pose proof (commands_matches (current_category app)). lia. }
  assert (Hsel : 0 <= selected_item app
                 < count_menu_items commands (current_category app)).
  { destruct (state app); try discriminate Hsub;
      destruct Hreach as [Hc Hsel]; rewrite Hc; lia. }
  destruct (get_menu_item_some commands _ _ Hb Hsel) as [p Hp].
  exists p. split; [exact Hp|].
  unfold input_callback, on_ok. cbn [press type key].
  destruct (state app); try discriminate Hsub; rewrite Hp; reflexivity.
Qed.

Lemma ok_always_stages_witness :
  exists p,
    get_menu_item commands MenuCategoryTarot 0 = Some p
    /\ input_callback commands (press InputKeyOk)
         (fst (run commands [press InputKeyOk; press InputKeyOk] (app_init 0, fresh_hal)))
         fresh_hal
       = (set_state AppStateConfirm
            (set_current_command (Some p)
               (fst (run commands [press InputKeyOk; press InputKeyOk]
                       (app_init 0, fresh_hal)))),
          fresh_hal).
Proof.
  apply (ok_always_stages
           (fst (run commands [press InputKeyOk; press InputKeyOk] (app_init 0, fresh_hal)))
           fresh_hal).
  - apply reachable_run. apply reach_init. split; [discriminate | reflexivity].
  - reflexivity.
Defined.

Lemma run_cons : forall table ev evs app h,
    run table (ev :: evs) (app, h)
    = run table evs (input_callback table ev app h).
Proof.
  intros table ev evs app h. unfold run. cbn [fold_left fst snd].
  destruct (input_callback table ev app h). reflexivity.
Qed.

Lemma down_step : forall table app h c,
    state app = AppStateMainMenu \/ is_submenu (state app) = true ->
    item_count table app = Some c ->
    0 <= selected_item app <= c - 1 ->
    c <= 256 ->
    input_callback table (press InputKeyDown) app h
    = (set_selected_item (Z.min (selected_item app + 1) (c - 1)) app, h).
Proof.
  intros table app h c Hs Hc Hsel Hsmall.
  unfold input_callback, on_down, item_count in *. cbn [press type key].
  destruct Hs as [Hs|Hs].
  - rewrite Hs in *. inversion Hc; subst c.
    destruct (Z.ltb_spec (selected_item app) 3).
    + rewrite wrap8_small by lia. rewrite Z.min_l by lia. reflexivity.
    + rewrite Z.min_r by lia. replace (4 - 1) with (selected_item app) by lia.
      destruct app; reflexivity.
  - destruct (state app); try discriminate Hs; inversion Hc; subst c;
      (destruct (Z.ltb_spec (selected_item app)
                            (count_menu_items table (current_category app) - 1));
       [rewrite wrap8_small by lia; rewrite Z.min_l by lia; reflexivity
       |rewrite Z.min_r by lia;
        replace (count_menu_items table (current_category app) - 1)
          with (selected_item app) by lia;
        destruct app; reflexivity]).
Qed.

Lemma up_step : forall table app h,
    state app = AppStateMainMenu \/ is_submenu (state app) = true ->
    0 <= selected_item app < 256 ->
    input_callback table (press InputKeyUp) app h
    = (set_selected_item (Z.max (selected_item app - 1) 0) app, h).
Proof.
  intros table app h Hs Hsel.
  unfold input_callback, on_up. cbn [press type key].
  assert (Hgo : (selected_item app >? 0) = true ->
                set_selected_item (wrap8 (selected_item app - 1)) app
                = set_selected_item (Z.max (selected_item app - 1) 0) app).
  { intros Hpos. apply Z.gtb_lt in Hpos.
    rewrite wrap8_small by lia. rewrite Z.max_l by lia. reflexivity. }
  assert (Hstay : (selected_item app >? 0) = false ->
                  app = set_selected_item (Z.max (selected_item app - 1) 0) app).
  { intros Hzero. rewrite Z.gtb_ltb in Hzero. apply Z.ltb_ge in Hzero.
    rewrite Z.max_r by lia. replace 0 with (selected_item app) by lia.
    destruct app; reflexivity. }
  destruct Hs as [Hs|Hs].
  - rewrite Hs. destruct (selected_item app >? 0) eqn:E;
      [rewrite Hgo | rewrite <- Hstay]; reflexivity.
  - destruct (state app); try discriminate Hs;
      (destruct (selected_item app >? 0) eqn:E;
       [rewrite Hgo | rewrite <- Hstay]; reflexivity).
Qed.

(** X19.  The cursor saturates: on the main menu and on a submenu, with the
    selection inside the list, [n] presses of Down move it [n] rows down
    but not past the last row, and [n] presses of Up move it [n] rows up
    but not past row 0; nothing else in the record changes, nor the HAL. *)
Theorem cursor_saturates : forall table app h c n,
    state app = AppStateMainMenu \/ is_submenu (state app) = true ->
    item_count table app = Some c ->
    0 <= selected_item app <= c - 1 ->
    run table (repeat (press InputKeyDown) n) (app, h)
    = (set_selected_item (Z.min (selected_item app + Z.of_nat n) (c - 1)) app, h)
    /\ run table (repeat (press InputKeyUp) n) (app, h)
       = (set_selected_item (Z.max (selected_item app - Z.of_nat n) 0) app, h).
Proof.
  intros table app h c n Hs Hc Hsel.
  assert (Hsmall : c <= 256).
  { unfold item_count in Hc. destruct Hs as [Hs|Hs].
    - rewrite Hs in Hc. inversion Hc. lia.
    - pose proof (count_menu_items_range table (current_category app)).
      destruct (state app); try discriminate Hs; inversion Hc; lia. }
  split.
  - revert app Hs Hc Hsel. induction n as [|n IH]; intros app Hs Hc Hsel.
    + cbn [repeat]. unfold run. cbn [fold_left].
      rewrite Z.add_0_r, Z.min_l by lia. destruct app; reflexivity.
    + cbn [repeat]. rewrite run_cons, (down_step table app h c Hs Hc Hsel Hsmall).
      rewrite IH.
      * cbn [selected_item set_selected_item]. f_equal.
        replace (Z.min (Z.min (selected_item app + 1) (c - 1) + Z.of_nat n) (c - 1))
          with (Z.min (selected_item app + Z.of_nat (S n)) (c - 1)) by lia.
        reflexivity.
      * exact Hs.
      * exact Hc.
      * cbn [selected_item set_selected_item]. lia.
  - revert app Hs Hc Hsel. induction n as [|n IH]; intros app Hs Hc Hsel.
    + cbn [repeat]. unfold run. cbn [fold_left].
      rewrite Z.sub_0_r, Z.max_l by lia. destruct app; reflexivity.
    + cbn [repeat]. rewrite run_cons, (up_step table app h Hs) by lia.
      rewrite IH.
      * cbn [selected_item set_selected_item]. f_equal.
        replace (Z.max (Z.max (selected_item app - 1) 0 - Z.of_nat n) 0)
          with (Z.max (selected_item app - Z.of_nat (S n)) 0) by lia.
        reflexivity.
      * exact Hs.
      * exact Hc.
      * cbn [selected_item set_selected_item]. lia.
Qed.

Lemma cursor_saturates_witness :
  run commands (repeat (press InputKeyDown) 9)
      (browsing AppStateContentMenu MenuCategoryContent 1, fresh_hal)
  = (set_selected_item (Z.min (1 + Z.of_nat 9) (4 - 1))
       (browsing AppStateContentMenu MenuCategoryContent 1), fresh_hal).
Proof.
  apply (cursor_saturates commands
           (browsing AppStateContentMenu MenuCategoryContent 1) fresh_hal 4 9).
  - right. reflexivity.
  - reflexivity.
  - split; discriminate.
Defined.

(** X20.  Every command of the catalog can be staged from start-up: for
    each of the twelve entries there are key presses that lead from the
    initial record to the Confirm screen with that entry staged, without
    touching the HAL. *)
Theorem every_command_stageable : forall p h,
    (p < List.length (entries commands))%nat ->
    exists evs,
      state (fst (run commands evs (app_init 0, h))) = AppStateConfirm
      /\ current_command (fst (run commands evs (app_init 0, h))) = Some p
      /\ snd (run commands evs (app_init 0, h)) = h.
Proof.
  intros p h Hp.
  pose (ok := press InputKeyOk). pose (down := press InputKeyDown).
  assert (Hcase : exists m i,
             (m = 0 /\ p = i /\ i < 5 \/ m = 1 /\ p = 5 + i /\ i < 4
              \/ m = 2 /\ p = 9 + i /\ i < 3)%nat).
  { cbn in Hp.
    destruct (Nat.lt_ge_cases p 5); [exists 0%nat, p; lia|].
    destruct (Nat.lt_ge_cases p 9); [exists 1%nat, (p - 5)%nat; lia|].
    exists 2%nat, (p - 9)%nat. lia. }
  destruct Hcase as (m & i & Hcase).
  exists ([ok] ++ repeat down m ++ [ok] ++ repeat down i ++ [ok]).
  destruct Hcase as [(-> & -> & Hi) | [(-> & -> & Hi) | (-> & -> & Hi)]].
  - do 5 (destruct i as [|i]; [repeat split; reflexivity|]). lia.
  - do 4 (destruct i as [|i]; [repeat split; reflexivity|]). lia.
  - do 3 (destruct i as [|i]; [repeat split; reflexivity|]). lia.
Qed.

Lemma every_command_stageable_witness :
  exists evs,
    state (fst (run commands evs (app_init 0, fresh_hal))) = AppStateConfirm
    /\ current_command (fst (run commands evs (app_init 0, fresh_hal))) = Some 8%nat
    /\ snd (run commands evs (app_init 0, fresh_hal)) = fresh_hal.
Proof.
  apply (every_command_stageable 8 fresh_hal). repeat constructor.
Defined.

Lemma commands_have_text : forall p e,
    (p < List.length (entries commands))%nat ->
    deref commands p = Some e ->
    exists s, command e = Some s.
Proof.
  intros p e Hp He.
  do 12 (destruct p as [|p];
         [cbn in He; inversion He; subst e; eexists; reflexivity|]).
  cbn in Hp. lia.
Qed.

(** X21.  A confirmed send, in a state the program can be in: OK on the
    Confirm screen hands [send_command] the command string of the catalog
    entry under the cursor, waits 1000 ms after it, and leaves the record on
    the main menu with selection 0, the category and the staged pointer
    still set. *)
Theorem confirmed_send : forall app h,
    reachable commands app ->
    state app = AppStateConfirm ->
    exists p e s,
      get_menu_item commands (current_category app) (selected_item app) = Some p
      /\ deref commands p = Some e
      /\ command e = Some s
      /\ input_callback commands (press InputKeyOk) app h
         = (set_selected_item 0 (set_state AppStateMainMenu app),
            furi_delay_ms 1000 (send_command s h)).
Proof.
  intros app h Hreach Hs.
  apply reachable_inv in Hreach. unfold app_inv in Hreach. rewrite Hs in Hreach.
  destruct Hreach as (_ & _ & p & Hp & Hget).
  destruct (get_menu_item_valid _ _ _ _ Hget) as (Hlt & e & n & He & _ & _).
  destruct (commands_have_text p e Hlt He) as [s Htext].
  exists p, e, s. repeat (split; [assumption|]).
  unfold input_callback, on_ok. cbn [press type key]. rewrite Hs, Hp.
  unfold command_text, command_at. rewrite He, Htext.
  destruct app; reflexivity.
Qed.

Lemma confirmed_send_witness :
  exists p e s,
    get_menu_item commands (current_category staged_app) (selected_item staged_app) = Some p
    /\ deref commands p = Some e
    /\ command e = Some s
    /\ input_callback commands (press InputKeyOk) staged_app plugged_host
       = (set_selected_item 0 (set_state AppStateMainMenu staged_app),
          furi_delay_ms 1000 (send_command s plugged_host)).
Proof.
  apply (confirmed_send staged_app plugged_host staged_app_reachable). reflexivity.
Defined.

(** ** The rows of a submenu *)

Lemma name_rows_app : forall xs ys, name_rows (xs ++ ys) = name_rows xs ++ name_rows ys.
Proof. intros xs ys. unfold name_rows. apply flat_map_app. Qed.

Lemma draw_rows_names : forall table app n a y cv,
    (forall k, (k < n)%nat ->
               exists p, get_menu_item table (current_category app) (Z.of_nat (a + k)) = Some p) ->
    0 <= y ->
    y + 10 * Z.of_nat n < 256 ->
    name_rows (fst (draw_rows table app (map Z.of_nat (seq a n)) y cv))
    = name_rows cv
        ++ map (fun k => (y + 10 * Z.of_nat k,
                          item_name table (current_category app) (Z.of_nat (a + k))))
               (seq 0 n).
Proof.
  intros table app. induction n as [|n IH]; intros a y cv Hget Hy Hfit.
  - cbn. rewrite app_nil_r. reflexivity.
  - cbn [seq map]. rewrite draw_rows_cons.
    destruct (Hget 0%nat) as [p Hp]; [lia|]. rewrite Nat.add_0_r in Hp.
    assert (Hrow : draw_row table app (Z.of_nat a) y cv
                   = ((if Z.of_nat a =? selected_item app
                       then cv ++ [CanvasDrawStr 4 y (Some ">"%string)]
                       else cv) ++ [CanvasDrawStr 12 y (name_at table p)],
                      y + 10)).
    { unfold draw_row. rewrite Hp, wrap8_small by lia. reflexivity. }
    rewrite Hrow. cbn [fst snd].
    rewrite IH.
    + assert (Htail : map (fun k => (y + 10 + 10 * Z.of_nat k,
                                     item_name table (current_category app)
                                       (Z.of_nat (S a + k)))) (seq 0 n)
                      = map (fun k => (y + 10 * Z.of_nat k,
                                       item_name table (current_category app)
                                         (Z.of_nat (a + k)))) (seq 1 n)).
      { rewrite <- seq_shift, map_map. apply map_ext. intros k.
        replace (S a + k)%nat with (a + S k)%nat by lia. f_equal. lia. }
      rewrite Htail. cbn [seq map].
      rewrite Nat.add_0_r, Z.mul_0_r, Z.add_0_r.
      assert (Hname : item_name table (current_category app) (Z.of_nat a)
                      = name_at table p).
      { unfold item_name. rewrite Hp. reflexivity. }
      rewrite Hname.
      destruct (Z.of_nat a =? selected_item app);
        rewrite !name_rows_app; cbn [name_rows flat_map Z.eqb Pos.eqb List.app];
        rewrite ?app_nil_r, <- ?app_assoc; reflexivity.
    + intros k Hk. replace (S a + k)%nat with (a + S k)%nat by lia. apply Hget. lia.
    + lia.
    + lia.
Qed.

(** X22.  The rows of a submenu frame are the entries of the category from
    the start of the viewport on, in catalog order, one every 10 pixels from
    y = 20: for an array of fewer than 256 elements and a selection below
    the item count, row [k] shows the name of entry [visible_start + k], for
    the [min 4 (item_count - visible_start)] rows there are. *)
Theorem submenu_rows_in_order : forall table app,
    (List.length table < 256)%nat ->
    0 <= selected_item app < count_menu_items table (current_category app) ->
    name_rows (render_submenu table app [])
    = map (fun k => (20 + 10 * Z.of_nat k,
                     item_name table (current_category app)
                       (visible_start app + Z.of_nat k)))
          (seq 0 (Z.to_nat (Z.min 4 (count_menu_items table (current_category app)
                                      - visible_start app)))).
Proof.
  intros table app Hlen Hsel.
  pose proof (matches_small (current_category app) table Hlen) as Hb.
  pose proof (count_menu_items_range table (current_category app)) as Hcount.
  assert (Hsel8 : 0 <= selected_item app < 256) by lia.
  pose proof (visible_start_value app Hsel8) as Hstart.
  assert (Hstart0 : 0 <= visible_start app <= selected_item app).
  { rewrite Hstart. destruct (Z.ltb_spec (selected_item app) 4); lia. }
  rewrite render_submenu_frame by exact Hsel8.
  rewrite name_rows_app. unfold visible_rows, visible_count.
  rewrite draw_rows_names.
  - cbn [List.app name_rows flat_map Z.eqb Pos.eqb].
    rewrite app_nil_r. apply map_ext. intros k.
    rewrite Nat2Z.inj_add, Z2Nat.id by lia. reflexivity.
  - intros k Hk. apply get_menu_item_some; [exact Hb | lia].
  - lia.
  - lia.
Qed.

Lemma submenu_rows_in_order_witness :
  name_rows (render_submenu commands (browsing AppStateTarotMenu MenuCategoryTarot 4) [])
  = map (fun k => (20 + 10 * Z.of_nat k,
                   item_name commands MenuCategoryTarot
                     (visible_start (browsing AppStateTarotMenu MenuCategoryTarot 4)
                      + Z.of_nat k)))
        (seq 0 (Z.to_nat (Z.min 4 (count_menu_items commands MenuCategoryTarot
                                    - visible_start
                                        (browsing AppStateTarotMenu MenuCategoryTarot 4))))).
Proof.
  apply (submenu_rows_in_order commands (browsing AppStateTarotMenu MenuCategoryTarot 4)).
  - repeat constructor.
  - split; [discriminate | reflexivity].
Defined.

(** ** Ways back *)

(** X23.  Cancelling and choosing again changes nothing: in a state the
    program can be in, Back on the Confirm screen followed by OK gives the
    Confirm screen with the same entry staged, the record and the HAL
    exactly as before. *)
Theorem cancel_then_confirm : forall app h,
    reachable commands app ->
    state app = AppStateConfirm ->
    run commands [press InputKeyBack; press InputKeyOk] (app, h) = (app, h).
Proof.
  intros app h Hreach Hs.
  apply reachable_inv in Hreach. unfold app_inv in Hreach. rewrite Hs in Hreach.
  destruct Hreach as (Hne & _ & p & Hp & Hget).
  unfold run. cbn [fold_left fst snd].
  assert (Hback : input_callback commands (press InputKeyBack) app h
                  = (set_state (match current_category app with
                                | MenuCategoryContent => AppStateContentMenu
                                | MenuCategoryNSFW => AppStateNSFWMenu
                                | _ => AppStateTarotMenu
                                end) app, h)).
  { unfold input_callback, on_back. cbn [press type key]. rewrite Hs.
    cbn [current_category set_state].
    destruct (current_category app); destruct app; reflexivity. }
  rewrite Hback. cbn [fst snd].
  unfold input_callback, on_ok. cbn [press type key].
  assert (Hsame : set_state AppStateConfirm (set_current_command (Some p) app) = app).
  { clear Hget Hback. destruct app. cbn [state current_command] in Hs, Hp.
    subst. reflexivity. }
  destruct (current_category app) eqn:Hc; [congruence | | | ];
    cbn [state set_state current_category selected_item];
    rewrite Hc, Hget; cbn [set_state set_current_command state selected_item menu_start
                           current_category current_command custom_command splash_timer
                           running];
    rewrite <- Hsame at 2; reflexivity.
Qed.

Lemma cancel_then_confirm_witness :
  run commands [press InputKeyBack; press InputKeyOk] (staged_app, fresh_hal)
  = (staged_app, fresh_hal).
Proof.
  apply (cancel_then_confirm staged_app fresh_hal staged_app_reachable). reflexivity.
Defined.

(** X24.  There is always a way out: from every screen the handler knows,
    three presses of Back clear [running], and none of them touches the
    HAL. *)
Theorem back_always_exits : forall table app h,
    state app <> AppStateCustomInput ->
    running (fst (run table (repeat (press InputKeyBack) 3) (app, h))) = false
    /\ snd (run table (repeat (press InputKeyBack) 3) (app, h)) = h.
Proof.
  intros table app h Hs. unfold run. cbn [repeat fold_left].
  unfold input_callback. cbn [press type key fst snd].
  split; [|reflexivity].
  destruct app as [st sel ms cat cmd cc timer run0]. cbn [state] in Hs.
  destruct st; try congruence; try reflexivity; destruct cat; reflexivity.
Qed.

Lemma back_always_exits_witness :
  running (fst (run commands (repeat (press InputKeyBack) 3) (staged_app, fresh_hal))) = false
  /\ snd (run commands (repeat (press InputKeyBack) 3) (staged_app, fresh_hal)) = fresh_hal.
Proof.
  apply (back_always_exits commands staged_app fresh_hal). discriminate.
Defined.
